(** * Parallel test runner ([sims/vcs/run_parallel_tests.py])

    A shallow embedding of the RISC-V DV parallel test runner: the log
    classifier, the per-test process supervisor, the signal-driven cleanup
    handler, test collection and the aggregation done by [main], followed by
    the properties of the runner that its specification states.

    Conventions of the embedding.
    - Python exceptions are values of [exn]; code that can raise lives in the
      monad [M] (state passing plus an exception result).
    - The module-level list [active_processes] and everything the program
      does to the outside world (printing, signals, sleeping, files written)
      are fields of [world]; the outside world's answers (what [Popen],
      [wait], [killpg], the file system return) are read from oracle records
      ([test_env], [main_env]).
    - Characters are 8-bit ([ascii]); text is [string]. *)

From Stdlib Require Import ZArith List Ascii String Lia Permutation Sorted.
From stdpp Require Import base option list strings pretty gmap.

Local Open Scope Z_scope.
Local Open Scope string_scope.
Local Open Scope list_scope.

(* ===================================================================== *)
(** * Regular expressions, as far as the runner's own patterns need them *)
(* ===================================================================== *)

Module Re.

(** The fragment of Python's [re] syntax used by the patterns written in the
    source: literal characters, [.], postfix [*] and top-level [|]. *)
Inductive regex : Type :=
| Void
| Eps
| Lit (c : ascii)
| Dot
| Cat (r s : regex)
| Alt (r s : regex)
| Star (r : regex).

(** Characters with a special meaning in [re] patterns. *)
Definition is_meta (c : ascii) : bool :=
  existsb (Ascii.eqb c)
    ["."; "*"; "|"; "\"; "["; "]"; "("; ")"; "+"; "?"; "{"; "}"; "^"; "$"]%char.

(** One alternative: a sequence of atoms, each optionally starred.  [None]
    for anything outside the fragment. *)
Fixpoint parse_branch (p : string) : option regex :=
  match p with
  | EmptyString => Some Eps
  | String c rest =>
      if Ascii.eqb c "." then
        match rest with
        | String "*" rest' => option_map (Cat (Star Dot)) (parse_branch rest')
        | _ => option_map (Cat Dot) (parse_branch rest)
        end
      else if is_meta c then None
      else
        match rest with
        | String "*" rest' => option_map (Cat (Star (Lit c))) (parse_branch rest')
        | _ => option_map (Cat (Lit c)) (parse_branch rest)
        end
  end.

(** Split a pattern at its top-level bars (the fragment has no groups, so
    every bar is top-level). *)
Fixpoint split_bar (p : string) (cur : string) : list string :=
  match p with
  | EmptyString => [cur]
  | String c rest =>
      if Ascii.eqb c "|" then cur :: split_bar rest EmptyString
      else split_bar rest (cur +:+ String c EmptyString)
  end.

Fixpoint parse_alts (bs : list string) : option regex :=
  match bs with
  | [] => Some Void
  | [b] => parse_branch b
  | b :: bs' =>
      match parse_branch b, parse_alts bs' with
      | Some r, Some s => Some (Alt r s)
      | _, _ => None
      end
  end.

Definition parse (p : string) : option regex := parse_alts (split_bar p EmptyString).

(** ASCII lower-casing, [str.lower] on 8-bit text. *)
Definition is_upper (c : ascii) : bool :=
  (65 <=? nat_of_ascii c)%nat && (nat_of_ascii c <=? 90)%nat.

Definition lower_char (c : ascii) : ascii :=
  if is_upper c then ascii_of_nat (nat_of_ascii c + 32) else c.

Fixpoint lower (s : string) : string :=
  match s with
  | EmptyString => EmptyString
  | String c s' => String (lower_char c) (lower s')
  end.

(** [needle in hay] on Python strings. *)
Fixpoint str_in (needle hay : string) : bool :=
  String.prefix needle hay
  || match hay with
     | EmptyString => false
     | String _ hay' => str_in needle hay'
     end.

(** Character comparison, under [re.IGNORECASE] or not. *)
Definition chr_eqb (ignorecase : bool) (a b : ascii) : bool :=
  if ignorecase then Ascii.eqb (lower_char a) (lower_char b) else Ascii.eqb a b.

Definition newline : ascii := "010"%char.

Fixpoint nullable (r : regex) : bool :=
  match r with
  | Void => false
  | Eps => true
  | Lit _ => false
  | Dot => false
  | Cat r s => nullable r && nullable s
  | Alt r s => nullable r || nullable s
  | Star _ => true
  end.

(** Brzozowski derivative.  [.] matches every character but a newline. *)
Fixpoint deriv (ic : bool) (c : ascii) (r : regex) : regex :=
  match r with
  | Void => Void
  | Eps => Void
  | Lit a => if chr_eqb ic a c then Eps else Void
  | Dot => if Ascii.eqb c newline then Void else Eps
  | Cat r s =>
      if nullable r then Alt (Cat (deriv ic c r) s) (deriv ic c s)
      else Cat (deriv ic c r) s
  | Alt r s => Alt (deriv ic c r) (deriv ic c s)
  | Star r => Cat (deriv ic c r) (Star r)
  end.

(** Does some prefix of [s] match [r]?  ([Pattern.match]) *)
Fixpoint match_prefix (ic : bool) (r : regex) (s : list ascii) : bool :=
  nullable r
  || match s with
     | [] => false
     | c :: s' => match_prefix ic (deriv ic c r) s'
     end.

(** Does some substring of [s] match [r]?  ([Pattern.search], as a truth
    value) *)
Fixpoint search (ic : bool) (r : regex) (s : list ascii) : bool :=
  match_prefix ic r s
  || match s with
     | [] => false
     | _ :: s' => search ic r s'
     end.

(** Declarative meaning of a regex: the texts it matches in full. *)
Inductive matches (ic : bool) : regex -> list ascii -> Prop :=
| m_eps : matches ic Eps []
| m_lit a c : chr_eqb ic a c = true -> matches ic (Lit a) [c]
| m_dot c : c <> newline -> matches ic Dot [c]
| m_cat r s u v : matches ic r u -> matches ic s v -> matches ic (Cat r s) (u ++ v)
| m_alt_l r s u : matches ic r u -> matches ic (Alt r s) u
| m_alt_r r s u : matches ic s u -> matches ic (Alt r s) u
| m_star_nil r : matches ic (Star r) []
| m_star_cons r u v :
    matches ic r u -> matches ic (Star r) v -> matches ic (Star r) (u ++ v).

(** A run of literal characters followed by [k], as [parse_branch] builds
    it. *)
Fixpoint lits (w : list ascii) (k : regex) : regex :=
  match w with
  | [] => k
  | c :: w' => Cat (Lit c) (lits w' k)
  end.

(** Case folding of a text under the flag. *)
Definition fold_char (ic : bool) (c : ascii) : ascii :=
  if ic then lower_char c else c.

Definition fold_case (ic : bool) (w : list ascii) : list ascii :=
  map (fold_char ic) w.

(** The regex of [w1.*w2.* ... .*wn]. *)
Fixpoint chain (ws : list string) : regex :=
  match ws with
  | [] => Eps
  | [w] => lits (list_ascii_of_string w) Eps
  | w :: ws' => lits (list_ascii_of_string w) (Cat (Star Dot) (chain ws'))
  end.

(** [spells ic ws u]: the text [u] is the words [ws] in this order, read
    with or without regard to case, consecutive words being separated by any
    text that holds no newline. *)
Inductive spells (ic : bool) : list string -> list ascii -> Prop :=
| spells_last w u :
    fold_case ic u = fold_case ic (list_ascii_of_string w) ->
    spells ic [w] u
| spells_gap w ws u gap rest :
    fold_case ic u = fold_case ic (list_ascii_of_string w) ->
    newline ∉ gap ->
    spells ic ws rest ->
    spells ic (w :: ws) (u ++ gap ++ rest).

(** Some part of the line spells the words. *)
Definition occurs (ic : bool) (ws : list string) (line : string) : Prop :=
  exists before u after,
    list_ascii_of_string line = before ++ u ++ after /\ spells ic ws u.

End Re.

(* ===================================================================== *)
(** * Exceptions, the outside world and the monad of the runner *)
(* ===================================================================== *)

(** Python exceptions, by the classes the source tells apart.
    [TimeoutExpired], [ReError] ([re.error]) and [Exception] are caught by
    [except Exception]; [SystemExit] is not. *)
Inductive exn : Type :=
| TimeoutExpired (text : string)
| ReError (text : string)
| Exception (text : string)
| SystemExit (code : Z).

Definition is_Exception (e : exn) : bool :=
  match e with
  | SystemExit _ => false
  | _ => true
  end.

Definition is_TimeoutExpired (e : exn) : bool :=
  match e with
  | TimeoutExpired _ => true
  | _ => false
  end.

Definition is_ReError (e : exn) : bool :=
  match e with
  | ReError _ => true
  | _ => false
  end.

(** [str(e)], what an f-string prints for [{e}]. *)
Definition exn_text (e : exn) : string :=
  match e with
  | TimeoutExpired t => t
  | ReError t => t
  | Exception t => t
  | SystemExit c => pretty c
  end.

Inductive result (A : Type) : Type :=
| Ok (a : A)
| Raised (e : exn).
Arguments Ok {A} a.
Arguments Raised {A} e.

Inductive signal : Type := SIGTERM | SIGKILL.

(** A [subprocess.Popen] handle, identified by the pid of its child. *)
Record Popen : Type := mkPopen { pid : Z }.

(** A [pathlib.Path], as its list of parts. *)
Definition Path : Type := list string.

Inductive status : Type := PASSED | FAILED | TIMEOUT.

Definition status_str (s : status) : string :=
  match s with
  | PASSED => "PASSED"
  | FAILED => "FAILED"
  | TIMEOUT => "TIMEOUT"
  end.

(** What the program does to its environment, in program order.  Printed
    lines are recorded without their [timestamp()] prefix and without blank
    lines around them; of the configuration banner and of the summary only
    the title and the four counts are kept. *)
Inductive event : Type :=
| EvPrint (line : string)
| EvPopen (cmd : list string) (log_file : string) (p : Popen)
| EvKillpg (pgid : Z) (sig : signal)
| EvSendSignal (p : Z) (sig : signal)
| EvSleep (seconds : Z)
| EvWriteText (file text : string)
| EvSubmit (test_file : Path)
| EvRun (cmd : list string)
| EvSummary (total passed failed timed_out : nat)
| EvRmtree (dir : string).

Record world : Type := mkWorld {
  active_processes : list Popen;
  trace : list event
}.

#[global] Instance signal_eq_dec : EqDecision signal.
Proof. solve_decision. Defined.
#[global] Instance Popen_eq_dec : EqDecision Popen.
Proof. solve_decision. Defined.
#[global] Instance status_eq_dec : EqDecision status.
Proof. solve_decision. Defined.
#[global] Instance exn_eq_dec : EqDecision exn.
Proof. solve_decision. Defined.
#[global] Instance event_eq_dec : EqDecision event.
Proof. solve_decision. Defined.

Definition M (A : Type) : Type := world -> result A * world.

Definition ret {A} (a : A) : M A := fun w => (Ok a, w).

Definition bind {A B} (m : M A) (k : A -> M B) : M B :=
  fun w =>
    match m w with
    | (Ok a, w') => k a w'
    | (Raised e, w') => (Raised e, w')
    end.

Definition raise {A} (e : exn) : M A := fun w => (Raised e, w).

#[global] Instance M_ret : MRet M := @ret.
#[global] Instance M_bind : MBind M := fun A B k m => bind m k.

(** [try: m  except <classes in catches> as e: h e] *)
Definition try_except {A} (m : M A) (catches : exn -> bool) (h : exn -> M A) : M A :=
  fun w =>
    match m w with
    | (Ok a, w') => (Ok a, w')
    | (Raised e, w') => if catches e then h e w' else (Raised e, w')
    end.

(** [try: m  finally: f] *)
Definition try_finally {A} (m : M A) (f : M unit) : M A :=
  fun w =>
    match m w with
    | (r, w') =>
        match f w' with
        | (Ok _, w'') => (r, w'')
        | (Raised e, w'') => (Raised e, w'')
        end
    end.

Definition emit (ev : event) : M unit :=
  fun w => (Ok tt, mkWorld (active_processes w) (trace w ++ [ev])).

Definition print (line : string) : M unit := emit (EvPrint line).

Definition sleep (seconds : Z) : M unit := emit (EvSleep seconds).

(** [sys.exit(code)] *)
Definition sys_exit {A} (code : Z) : M A := raise (SystemExit code).

(** An operation of the outside world: it happens (and is recorded) or it
    raises. *)
Definition attempt (outcome : option exn) (ev : event) : M unit :=
  match outcome with
  | None => emit ev
  | Some e => raise e
  end.

Fixpoint for_each {A} (l : list A) (body : A -> M unit) : M unit :=
  match l with
  | [] => ret tt
  | x :: l' => body x ;; for_each l' body
  end.


(* ===================================================================== *)
(** * Paths *)
(* ===================================================================== *)

(** [Path.name]: the last part. *)
Definition path_name (p : Path) : string := List.last p EmptyString.

(** [str.rfind('.')], counting from index [i] of the head. *)
Fixpoint rfind_dot (s : string) (i : nat) : option nat :=
  match s with
  | EmptyString => None
  | String c s' =>
      match rfind_dot s' (S i) with
      | Some j => Some j
      | None => if Ascii.eqb c "." then Some i else None
      end
  end.

(** [PurePath.stem]: the name without its last suffix; a leading or a
    trailing dot starts no suffix. *)
Definition stem_of_name (name : string) : string :=
  match rfind_dot name 0 with
  | Some i =>
      if (0 <? i)%nat && (i <? String.length name - 1)%nat
      then String.substring 0 i name
      else name
  | None => name
  end.

Definition path_stem (p : Path) : string := stem_of_name (path_name p).

(** [str(path)] *)
Fixpoint path_str (p : Path) : string :=
  match p with
  | [] => "."
  | [x] => x
  | x :: p' => x +:+ "/" +:+ path_str p'
  end.

(** [dir / name] for a directory given as text. *)
Definition path_join (dir name : string) : string := dir +:+ "/" +:+ name.

(* ===================================================================== *)
(** * Log classification *)
(* ===================================================================== *)

(** A log file as the classifier finds it: [None] when it does not exist,
    otherwise its lines in file order. *)
Definition log_file_contents : Type := option (list string).

(** [re.compile(pattern, re.IGNORECASE if 'error' in pattern.lower() else 0)]:
    the flag and the compiled pattern ([None]: [re.error]). *)
Definition ignorecase_of (pattern : string) : bool :=
  Re.str_in "error" (Re.lower pattern).

Definition re_compile (pattern : string) : option (bool * Re.regex) :=
  option_map (pair (ignorecase_of pattern)) (Re.parse pattern).

(** [check_log_for_pattern(log_file, pattern)]: a missing file gives
    [False]; so does any exception, among them a pattern that does not
    compile; otherwise the lines are searched one by one.  (A file that
    exists is taken to be readable to its end.) *)
Definition check_log_for_pattern (log : log_file_contents) (pattern : string) : bool :=
  match log with
  | None => false
  | Some lines =>
      match re_compile pattern with
      | None => false
      | Some (ic, regex) =>
          existsb (fun line => Re.search ic regex (list_ascii_of_string line)) lines
      end
  end.

(** The three patterns of the source. *)
Definition pat_max_cycles : string := "Fatal:.*TestDriver.*at time.*ps".
Definition pat_error : string := "Error:|Assertion failed".
Definition pat_fatal_at_time : string := "Fatal:.*TestDriver.*at time".

(** [exit_code == 124]: the one way in which the classifier is told that the
    wall clock expired. *)
Definition timed_out (exit_code : Z) : bool := bool_decide (exit_code = 124).

(** The [if]/[elif] chain of [run_single_test] that turns the exit code and
    the log into the status and the printed reason. *)
Definition determine_result (exit_code : Z) (log : log_file_contents) : status * string :=
  if timed_out exit_code then (TIMEOUT, "(wall-clock)")
  else if check_log_for_pattern log pat_max_cycles then (TIMEOUT, "(max-cycles)")
  else if check_log_for_pattern log pat_error
          && negb (check_log_for_pattern log pat_fatal_at_time)
       then (FAILED, EmptyString)
  else if decide (exit_code <> 0) then (FAILED, "(exit: " +:+ pretty exit_code +:+ ")")
  else (PASSED, EmptyString).

(** The classifier as the specification words it: a separate [timedOut]
    input, and in the third case the same marker as in the second. *)
Definition classify_spec (log : log_file_contents) (exitCode : Z) (timedOut : bool) : status :=
  if timedOut then TIMEOUT
  else if check_log_for_pattern log pat_max_cycles then TIMEOUT
  else if check_log_for_pattern log pat_error
          && negb (check_log_for_pattern log pat_max_cycles)
       then FAILED
  else if decide (exitCode <> 0) then FAILED
  else PASSED.

(* ===================================================================== *)
(** * The process supervisor and [run_single_test] *)
(* ===================================================================== *)

(** What the outside world answers during one test. *)
Record test_env : Type := mkTestEnv {
  (** [open(log_file, 'w')] *)
  env_open : option exn;
  (** [subprocess.Popen(..., preexec_fn=os.setsid)] *)
  env_popen : result Popen;
  (** [proc.wait(timeout=wall_timeout)]: the exit code, or what it raises *)
  env_wait : result Z;
  (** [os.getpgid(proc.pid)] *)
  env_pgid : Z;
  (** [os.killpg(os.getpgid(proc.pid), signal.SIGTERM)] *)
  env_killpg_term : option exn;
  (** [os.killpg(os.getpgid(proc.pid), signal.SIGKILL)] *)
  env_killpg_kill : option exn;
  (** the log file once the command is over *)
  env_log : log_file_contents;
  (** [result_file.write_text] in the exception handler *)
  env_write_failed : option exn;
  (** [result_file.write_text] of the status *)
  env_write_status : option exn
}.

Definition lift_result {A} (r : result A) : M A :=
  match r with
  | Ok a => ret a
  | Raised e => raise e
  end.

(** [active_processes.append(proc)] *)
Definition registry_append (proc : Popen) : M unit :=
  fun w => (Ok tt, mkWorld (active_processes w ++ [proc]) (trace w)).

(** [list.remove]: the first equal element goes. *)
Fixpoint remove_first (proc : Popen) (l : list Popen) : list Popen :=
  match l with
  | [] => []
  | x :: l' => if decide (x = proc) then l' else x :: remove_first proc l'
  end.

(** [if proc in active_processes: active_processes.remove(proc)] *)
Definition registry_discard (proc : Popen) : M unit :=
  fun w =>
    if bool_decide (proc ∈ active_processes w)
    then (Ok tt, mkWorld (remove_first proc (active_processes w)) (trace w))
    else (Ok tt, w).

(** [os.killpg(os.getpgid(proc.pid), sig)] *)
Definition killpg (env : test_env) (sig : signal) : M unit :=
  attempt (match sig with
           | SIGTERM => env_killpg_term env
           | SIGKILL => env_killpg_kill env
           end)
          (EvKillpg (env_pgid env) sig).

(** The supervised part of [run_single_test] (the body of its outer [try]):
    open the log, spawn the command in a new process group, register it,
    wait with the wall-clock timeout, escalate on expiry, unregister.
    Returns [exit_code].  [wait_or_escalate] is its inner [try] with the
    [except subprocess.TimeoutExpired] clause. *)
Definition wait_or_escalate (env : test_env) : M Z :=
  try_except
    (lift_result (env_wait env))
    is_TimeoutExpired
    (fun _ =>
       killpg env SIGTERM;;
       sleep 1;;
       try_except (killpg env SIGKILL) (fun _ => true) (fun _ => mret tt);;
       mret 124).

Definition supervise (env : test_env) (cmd : list string) (log_file : string)
    (wall_timeout : Z) : M Z :=
  lift_result (from_option Raised (Ok tt) (env_open env));;
  proc ← lift_result (env_popen env);
  emit (EvPopen cmd log_file proc);;
  registry_append proc;;
  try_finally (wait_or_escalate env) (registry_discard proc).

Definition write_text (outcome : option exn) (file text : string) : M unit :=
  attempt outcome (EvWriteText file text).

(** The [make] command line of one test. *)
Definition build_command (test_file : Path) (config : string) (timeout_cycles : Z)
    (debug : bool) : list string :=
  let make_target := if debug then "run-binary-debug" else "run-binary" in
  [ "make";
    "CONFIG=" +:+ config;
    "BINARY=" +:+ path_str test_file;
    "TIMEOUT_CYCLES=" +:+ pretty timeout_cycles;
    make_target ].

(** [run_single_test(test_file, config, timeout_cycles, debug, log_dir,
    result_dir, wall_timeout)] *)
Definition run_single_test (env : test_env) (test_file : Path) (config : string)
    (timeout_cycles : Z) (debug : bool) (log_dir result_dir : string)
    (wall_timeout : Z) : M (string * status) :=
  let test_name := path_stem test_file in
  let log_file := path_join log_dir (test_name +:+ ".log") in
  let result_file := path_join result_dir (test_name +:+ ".result") in
  print ("Starting: " +:+ test_name);;
  let cmd := build_command test_file config timeout_cycles debug in
  r ← try_except
        (exit_code ← supervise env cmd log_file wall_timeout; mret (inl exit_code))
        is_Exception
        (fun e =>
           print ("ERROR: " +:+ test_name +:+ " - " +:+ exn_text e);;
           write_text (env_write_failed env) result_file ("FAILED:" +:+ test_name);;
           mret (inr (test_name, FAILED)));
  match r with
  | inr early => mret early
  | inl exit_code =>
      let '(status, reason) := determine_result exit_code (env_log env) in
      write_text (env_write_status env) result_file
        (status_str status +:+ ":" +:+ test_name);;
      print (status_str status +:+ ": " +:+ test_name +:+ " " +:+ reason);;
      mret (test_name, status)
  end.

(* ===================================================================== *)
(** * The cleanup handler *)
(* ===================================================================== *)

(** [Popen.terminate] and [Popen.kill]: the signal goes to the child's pid
    ([os.kill(self.pid, sig)]), or the call raises. *)
Definition send_signal (outcome : Popen -> signal -> option exn) (proc : Popen)
    (sig : signal) : M unit :=
  attempt (outcome proc sig) (EvSendSignal (pid proc) sig).

(** [try: body  except: pass], the bare [except] that catches everything. *)
Definition try_pass (body : M unit) : M unit :=
  try_except body (fun _ => true) (fun _ => mret tt).

Definition get_active_processes : M (list Popen) :=
  fun w => (Ok (active_processes w), w).

(** [cleanup_handler(signum, frame)], run in the process that receives
    SIGINT or SIGTERM, on that process's [active_processes]. *)
Definition cleanup_handler (outcome : Popen -> signal -> option exn) : M unit :=
  print "Cleaning up...";;
  procs ← get_active_processes;
  for_each procs (fun proc => try_pass (send_signal outcome proc SIGTERM));;
  sleep 1;;
  procs ← get_active_processes;
  for_each procs (fun proc => try_pass (send_signal outcome proc SIGKILL));;
  sys_exit 130.

(** Processes of the machine, each with its process group. *)
Record process : Type := mkProcess { proc_pid : Z; proc_pgid : Z }.

(** Is the signal of event [ev] addressed to process [p]?  [os.kill]
    addresses one pid, [os.killpg] every member of a group. *)
Definition addressed (ev : event) (p : process) : bool :=
  match ev with
  | EvSendSignal target _ => bool_decide (proc_pid p = target)
  | EvKillpg pgid _ => bool_decide (proc_pgid p = pgid)
  | _ => false
  end.

(** The processes that no signal of the trace was addressed to: whatever
    the signalled ones do, the program has done nothing to stop these. *)
Definition never_signalled (tr : list event) (ps : list process) : list process :=
  List.filter (fun p => forallb (fun ev => negb (addressed ev p)) tr) ps.

(* ===================================================================== *)
(** * Test collection *)
(* ===================================================================== *)

(** Order of [Path] objects: their parts, compared as Python compares lists
    of strings. *)
Fixpoint path_ltb (p q : Path) : bool :=
  match p, q with
  | _, [] => false
  | [], _ :: _ => true
  | x :: p', y :: q' =>
      match String.compare x y with
      | Lt => true
      | Eq => path_ltb p' q'
      | Gt => false
      end
  end.

(** [sorted(...)]: a stable sort that compares with [<] only. *)
Fixpoint insert_sorted (x : Path) (l : list Path) : list Path :=
  match l with
  | [] => [x]
  | y :: l' => if path_ltb y x then y :: insert_sorted x l' else x :: y :: l'
  end.

Definition sorted (l : list Path) : list Path := foldr insert_sorted [] l.

(** The file system and Python's [re] module, for caller-supplied input. *)
Record fs_env : Type := mkFsEnv {
  (** [binary_dir.glob(pattern)] *)
  fs_glob : Path -> string -> list Path;
  (** [test_file.is_file()] *)
  fs_is_file : Path -> bool;
  (** [re.search(pattern, text)] as a truth value, once [pattern] compiles;
      an invalid pattern raises [re.error] whatever the text is *)
  fs_re : string -> result (string -> bool)
}.

Definition nonempty (s : string) : bool :=
  match s with
  | EmptyString => false
  | _ => true
  end.

(** The loop of [collect_tests], [tests] being the list built so far. *)
Fixpoint collect_loop (fs : fs_env) (exclude_pattern : string)
    (candidates : list Path) (tests : list Path) : M (list Path) :=
  match candidates with
  | [] => mret tests
  | test_file :: rest =>
      if negb (fs_is_file fs test_file) then
        collect_loop fs exclude_pattern rest tests
      else
        skip ←
          (if nonempty exclude_pattern then
             try_except
               (found ← lift_result (fs_re fs exclude_pattern);
                mret (found (path_name test_file)))
               is_ReError
               (fun e =>
                  print ("[WARNING] Invalid exclude pattern '" +:+ exclude_pattern
                         +:+ "': " +:+ exn_text e);;
                  sys_exit 1)
           else mret false);
        if (skip : bool) then collect_loop fs exclude_pattern rest tests
        else collect_loop fs exclude_pattern rest (tests ++ [test_file])
  end.

(** [collect_tests(binary_dir, pattern, exclude_pattern)] *)
Definition collect_tests (fs : fs_env) (binary_dir : Path) (pattern : string)
    (exclude_pattern : string) : M (list Path) :=
  collect_loop fs exclude_pattern (sorted (fs_glob fs binary_dir pattern)) [].

(* ===================================================================== *)
(** * [main]: the worker pool and the aggregation *)
(* ===================================================================== *)

(** The parsed command line. *)
Record args : Type := mkArgs {
  out_dir : string;
  config : string;
  timeout_cycles : Z;
  wall_timeout : Z;
  parallel : Z;
  pattern : string;
  exclude : string;
  debug : bool;
  gen_vector : bool;
  log_dir : string;
  no_compare : bool
}.

(** A finished future of the pool with the test it was submitted for: what
    [future.result()] returns or raises. *)
Definition future : Type := Path * result (string * status).

(** What the outside world answers to the driver process. *)
Record main_env : Type := mkMainEnv {
  riscv_dv_dir_exists : bool;
  gen_script_exists : bool;
  (** [subprocess.run([gen_script, ...], check=True)] *)
  gen_outcome : option exn;
  binary_dir_exists : bool;
  env_fs : fs_env;
  (** [tempfile.mkdtemp(prefix='test_results_')] *)
  result_dir : string;
  (** what each test meets in the worker process that runs it *)
  worker_env : Path -> test_env;
  (** [as_completed(futures)]: the futures in completion order *)
  as_completed : list future -> list future;
  (** SIGINT or SIGTERM reaches the driver while it handles the completed
      future of this index (the number of futures: after the loop) *)
  interrupt_at : option nat;
  (** [proc.terminate()] and [proc.kill()] in the handler *)
  signal_outcome : Popen -> signal -> option exn;
  compare_script_exists : bool;
  (** [subprocess.run([compare_script, ...])] *)
  compare_outcome : option exn
}.

(** A worker process starts with its own, empty [active_processes]. *)
Definition worker_start : world := mkWorld [] [].

(** [executor.submit(run_single_test, test_file, ...)]: the test runs in a
    worker; an exception it raises there is re-raised by [future.result()]. *)
Definition submit (env : main_env) (a : args) (test_file : Path) : M future :=
  emit (EvSubmit test_file);;
  mret (test_file,
        fst (run_single_test (worker_env env test_file) test_file (config a)
               (timeout_cycles a) (debug a) (log_dir a) (result_dir env)
               (wall_timeout a) worker_start)).

Fixpoint submit_all (env : main_env) (a : args) (tests : list Path) : M (list future) :=
  match tests with
  | [] => mret []
  | test_file :: rest =>
      f ← submit env a test_file;
      fs ← submit_all env a rest;
      mret (f :: fs)
  end.

(** A point at which a pending signal is handled. *)
Definition checkpoint (env : main_env) (k : nat) : M unit :=
  if decide (interrupt_at env = Some k) then cleanup_handler (signal_outcome env)
  else mret tt.

(** The [for future in as_completed(futures)] loop; [k] counts the futures
    handled so far. *)
Fixpoint pool_loop (env : main_env) (k : nat) (completed : list future)
    (results : gmap string status) : M (gmap string status) :=
  match completed with
  | [] => mret results
  | (test_file, outcome) :: rest =>
      results' ←
        try_except
          (checkpoint env k;;
           r ← lift_result outcome;
           mret (<[fst r := snd r]> results))
          is_Exception
          (fun e =>
             print ("[ERROR] Exception for " +:+ path_name test_file +:+ ": "
                    +:+ exn_text e);;
             mret (<[path_stem test_file := FAILED]> results));
      pool_loop env (S k) rest results'
  end.

(** The loop that sorts [results.items()] into the three lists. *)
Definition categorize (items : list (string * status))
  : list string * list string * list string :=
  foldl (fun (acc : list string * list string * list string) item =>
           let '(passed, failed, timeouts) := acc in
           match snd item with
           | PASSED => ((passed ++ [fst item])%list, failed, timeouts)
           | TIMEOUT => (passed, failed, (timeouts ++ [fst item])%list)
           | FAILED => (passed, (failed ++ [fst item])%list, timeouts)
           end)
        ([], [], []) items.

Definition is_nil {A} (l : list A) : bool :=
  match l with
  | [] => true
  | _ => false
  end.

(** Everything of [main] after the pool: summary, comparison, exit. *)
Definition report (env : main_env) (a : args) (tests : list Path)
    (results : gmap string status) : M unit :=
  let '(passed, failed, timeouts) := categorize (map_to_list results) in
  emit (EvSummary (length tests) (length passed) (length failed) (length timeouts));;
  (if no_compare a then mret tt
   else
     print "Running comparison...";;
     if compare_script_exists env
     then attempt (compare_outcome env)
            (EvRun ["compare_all.py";
                    "output/chipyard.harness.TestHarness." +:+ config a])
     else print "Warning: compare_all.py not found, skipping comparison");;
  if negb (is_nil failed) || negb (is_nil timeouts) then sys_exit 1
  else print "All tests passed!";; sys_exit 0.

(** [ProcessPoolExecutor(max_workers=args.parallel)]: the constructor raises
    [ValueError] unless the number of workers is positive. *)
Definition make_executor (a : args) : M unit :=
  if decide (parallel a <= 0)
  then raise (Exception "max_workers must be greater than 0")
  else mret tt.

(** The [with ProcessPoolExecutor(...)] block: submit every test, then
    handle the futures as they complete. *)
Definition run_pool (env : main_env) (a : args) (tests : list Path)
  : M (gmap string status) :=
  make_executor a;;
  futures ← submit_all env a tests;
  results ← pool_loop env 0 (as_completed env futures) ∅;
  print "Waiting for all tests to complete...";;
  checkpoint env (length futures);;
  sleep 1;;
  mret results.

(** The [try] ... [finally] of [main]: run the pool, report, and remove the
    temporary result directory whatever happens. *)
Definition run_tests (env : main_env) (a : args) (tests : list Path) : M unit :=
  try_finally
    (print "RISC-V DV Parallel Test Runner";;
     results ← run_pool env a tests;
     report env a tests results)
    (emit (EvRmtree (result_dir env))).

(** The [if args.gen_vector:] block of [main]. *)
Definition generate_vectors (env : main_env) (a : args) : M unit :=
  if gen_vector a then
    print "Generating test vectors...";;
    if gen_script_exists env
    then attempt (gen_outcome env)
           (EvRun ["generate_test_vector.py"; "--out-dir"; out_dir a])
    else print "Warning: generate_test_vector.py not found, skipping generation"
  else mret tt.

(** [main()], from the installation of the signal handlers on.  Creating
    the log directory and the temporary result directory is taken to
    succeed. *)
Definition main (env : main_env) (a : args) : M unit :=
  if negb (riscv_dv_dir_exists env) then
    print "Error: riscv-dv directory not found";; sys_exit 1
  else
    let binary_dir : Path := ["riscv-dv"; out_dir a; "asm_test"] in
    generate_vectors env a;;
    if negb (binary_dir_exists env) then
      print "Error: Binary directory not found";; sys_exit 1
    else
      tests ← collect_tests (env_fs env) binary_dir (pattern a) (exclude a);
      if is_nil tests then print "No tests found!";; sys_exit 1
      else run_tests env a tests.

(* ===================================================================== *)
(** * Sample inputs *)
(* ===================================================================== *)

(** Concrete tests, file systems and command lines to run the model on. *)
Module Sample.

Definition quiet_test : test_env :=
  mkTestEnv None (Ok (mkPopen 4242)) (Ok 0) 4242 None None (Some ["ok"]) None None.

Definition expiring_test : test_env :=
  mkTestEnv None (Ok (mkPopen 4242)) (Raised (TimeoutExpired "timed out"))
    4242 None None (Some ["ok"]) None None.

Definition exit_124_test : test_env :=
  mkTestEnv None (Ok (mkPopen 4242)) (Ok 124) 4242 None None (Some ["ok"]) None None.

Definition spawn_failure_test : test_env :=
  mkTestEnv None (Raised (Exception "No such file: make")) (Ok 0) 0 None None
    None None None.

Definition start : world := mkWorld [] [].

Definition asm_test (name : string) : Path := ["riscv-dv"; "out"; "asm_test"; name].

Definition literal_re (pattern : string) : result (string -> bool) :=
  match Re.parse pattern with
  | Some r => Ok (fun text => Re.search false r (list_ascii_of_string text))
  | None => Raised (ReError "unsupported pattern")
  end.

Definition fs (names : list string) : fs_env :=
  mkFsEnv (fun _ _ => map asm_test names) (fun _ => true) literal_re.

Definition driver (names : list string) : main_env :=
  mkMainEnv true false None true (fs names) "/tmp/test_results_x"
    (fun _ => quiet_test) (fun l => l) None (fun _ _ => None) false None.

Definition failing_test : test_env :=
  mkTestEnv None (Ok (mkPopen 4242)) (Ok 1) 4242 None None
    (Some ["Error: mismatch at pc 80000000"]) None None.

(** Three tests: [a] passes, [b] outlives the wall clock, [c] exits with 1
    and an "Error:" line in its log. *)
Definition scenario : main_env :=
  mkMainEnv true false None true (fs ["a.o"; "b.o"; "c.o"]) "/tmp/test_results_x"
    (fun t => if String.eqb (path_name t) "b.o" then expiring_test
              else if String.eqb (path_name t) "c.o" then failing_test
              else quiet_test)
    (fun l => rev l) None (fun _ _ => None) false None.

Definition cmdline (pattern exclude : string) : args :=
  mkArgs "out" "RV32RocketConfig" 10000000 3600 20 pattern exclude false false
    "logs" true.

End Sample.

(* ===================================================================== *)
(** * Auxiliary notions used in the statements *)
(* ===================================================================== *)

(** The same test, but with a command that outlives the wall clock and a
    process group that takes the termination signal. *)
Definition expiring (env : test_env) (text : string) : test_env :=
  mkTestEnv (env_open env) (env_popen env) (Raised (TimeoutExpired text))
    (env_pgid env) None (env_killpg_kill env) (env_log env)
    (env_write_failed env) (env_write_status env).

(** The events of the timeout escalation. *)
Definition is_escalation (ev : event) : bool :=
  match ev with
  | EvKillpg _ _ | EvSleep _ => true
  | _ => false
  end.

(** What [supervise] does, path by path, when the spawned handle is new to
    the registry. *)
Definition supervise_paths (env : test_env) (cmd : list string) (log_file : string)
    (reg : list Popen) (tr : list event) : result Z * world :=
  match env_open env with
  | Some e => (Raised e, mkWorld reg tr)
  | None =>
      match env_popen env with
      | Raised e => (Raised e, mkWorld reg tr)
      | Ok proc =>
          let tr1 := tr ++ [EvPopen cmd log_file proc] in
          match env_wait env with
          | Ok code => (Ok code, mkWorld reg tr1)
          | Raised e =>
              if is_TimeoutExpired e then
                match env_killpg_term env with
                | Some e' => (Raised e', mkWorld reg tr1)
                | None =>
                    (Ok 124,
                     mkWorld reg
                       ((tr1 ++ [EvKillpg (env_pgid env) SIGTERM]) ++ [EvSleep 1]
                        ++ match env_killpg_kill env with
                           | None => [EvKillpg (env_pgid env) SIGKILL]
                           | Some _ => []
                           end))
                end
              else (Raised e, mkWorld reg tr1)
          end
      end
  end.

(** What [run_single_test] does, path by path, when the spawned handle is
    new to the registry. *)
Definition run_single_test_paths (env : test_env) (test_file : Path) (config : string)
    (timeout_cycles : Z) (debug : bool) (log_dir result_dir : string)
    (reg : list Popen) (tr : list event) : result (string * status) * world :=
  let test_name := path_stem test_file in
  let result_file := path_join result_dir (test_name +:+ ".result") in
  match supervise_paths env (build_command test_file config timeout_cycles debug)
          (path_join log_dir (test_name +:+ ".log")) reg
          (tr ++ [EvPrint ("Starting: " +:+ test_name)]) with
  | (Ok exit_code, w1) =>
      let st := fst (determine_result exit_code (env_log env)) in
      let reason := snd (determine_result exit_code (env_log env)) in
      match env_write_status env with
      | Some e => (Raised e, w1)
      | None =>
          (Ok (test_name, st),
           mkWorld (active_processes w1)
             (trace w1
              ++ [EvWriteText result_file (status_str st +:+ ":" +:+ test_name);
                  EvPrint (status_str st +:+ ": " +:+ test_name +:+ " " +:+ reason)]))
      end
  | (Raised e, w1) =>
      if is_Exception e then
        let tr2 := trace w1
                   ++ [EvPrint ("ERROR: " +:+ test_name +:+ " - " +:+ exn_text e)] in
        match env_write_failed env with
        | Some e' => (Raised e', mkWorld (active_processes w1) tr2)
        | None =>
            (Ok (test_name, FAILED),
             mkWorld (active_processes w1)
               (tr2 ++ [EvWriteText result_file ("FAILED:" +:+ test_name)]))
        end
      else (Raised e, w1)
  end.

(** The signals that the cleanup handler gets through to the registered
    processes. *)
Definition cleanup_signals (outcome : Popen -> signal -> option exn) (sig : signal)
    (procs : list Popen) : list event :=
  flat_map (fun proc =>
              match outcome proc sig with
              | None => [EvSendSignal (pid proc) sig]
              | Some _ => []
              end) procs.

Definition cleanup_events (outcome : Popen -> signal -> option exn)
    (procs : list Popen) : list event :=
  [EvPrint "Cleaning up..."] ++ cleanup_signals outcome SIGTERM procs
  ++ [EvSleep 1] ++ cleanup_signals outcome SIGKILL procs.

Definition is_summary (ev : event) : bool :=
  match ev with
  | EvSummary _ _ _ _ => true
  | _ => false
  end.

Definition is_submit (ev : event) : bool :=
  match ev with
  | EvSubmit _ => true
  | _ => false
  end.

(** The future that [submit] creates for a test. *)
Definition worker_future (env : main_env) (a : args) (test_file : Path) : future :=
  (test_file,
   fst (run_single_test (worker_env env test_file) test_file (config a)
          (timeout_cycles a) (debug a) (log_dir a) (result_dir env)
          (wall_timeout a) worker_start)).

(** A future that returns, or raises something [except Exception] catches. *)
Definition future_ok (f : future) : bool :=
  match snd f with
  | Raised e => is_Exception e
  | Ok _ => true
  end.

(** The entry that the loop of [main] makes for a future. *)
Definition future_key (f : future) : string :=
  match snd f with
  | Ok r => fst r
  | Raised _ => path_stem (fst f)
  end.

Definition future_status (f : future) : status :=
  match snd f with
  | Ok r => snd r
  | Raised _ => FAILED
  end.

Definition record_future (results : gmap string status) (f : future)
  : gmap string status :=
  <[future_key f := future_status f]> results.

(** What the loop of [main] prints for a future. *)
Definition future_events (f : future) : list event :=
  match snd f with
  | Ok _ => []
  | Raised e =>
      [EvPrint ("[ERROR] Exception for " +:+ path_name (fst f) +:+ ": "
                +:+ exn_text e)]
  end.

(** The names of the items with a given status, in order. *)
Definition names_with (st : status) (items : list (string * status)) : list string :=
  map fst (List.filter (fun item => bool_decide (snd item = st)) items).

(** No signal reaches the driver while it handles the futures numbered
    [k], ..., [k + n - 1]. *)
Definition undisturbed (env : main_env) (k n : nat) : Prop :=
  forall j, interrupt_at env = Some j -> (j < k \/ k + n <= j)%nat.

(** The futures of a run in the order in which the loop of [main] sees
    them. *)
Definition completed_futures (env : main_env) (a : args) (tests : list Path)
  : list future :=
  as_completed env (map (worker_future env a) tests).





(** Which candidates [collect_tests] keeps, given what the exclusion
    expression finds ([None]: no expression was supplied). *)
Definition kept (fs : fs_env) (found : option (string -> bool)) (test_file : Path)
  : bool :=
  fs_is_file fs test_file
  && match found with
     | None => true
     | Some f => negb (f (path_name test_file))
     end.

(** Some line of the log satisfies [P]. *)
Definition has_line (P : string -> Prop) (log : log_file_contents) : Prop :=
  exists lines line, log = Some lines /\ line ∈ lines /\ P line.

(** The markers that the three patterns look for in a line. *)
Definition max_cycle_marker (line : string) : Prop :=
  Re.occurs false ["Fatal:"; "TestDriver"; "at time"; "ps"] line.

Definition fatal_at_time_marker (line : string) : Prop :=
  Re.occurs false ["Fatal:"; "TestDriver"; "at time"] line.

Definition error_marker (line : string) : Prop :=
  Re.occurs true ["Error:"] line \/ Re.occurs true ["Assertion failed"] line.

(** Events that write a result file; events that signal a process group. *)
Definition is_write (ev : event) : bool :=
  match ev with
  | EvWriteText _ _ => true
  | _ => false
  end.

Definition is_killpg (ev : event) : bool :=
  match ev with
  | EvKillpg _ _ => true
  | _ => false
  end.

Definition is_rmtree (ev : event) : bool :=
  match ev with
  | EvRmtree _ => true
  | _ => false
  end.

(** The same driver with another completion order of the futures. *)
Definition with_order (env : main_env) (order : list future -> list future)
  : main_env :=
  mkMainEnv (riscv_dv_dir_exists env) (gen_script_exists env) (gen_outcome env)
    (binary_dir_exists env) (env_fs env) (result_dir env) (worker_env env) order
    (interrupt_at env) (signal_outcome env) (compare_script_exists env)
    (compare_outcome env).

(** What [report] raises and emits, path by path. *)
Definition report_paths (env : main_env) (a : args) (tests : list Path)
    (results : gmap string status) : result unit * list event :=
  let items := map_to_list results in
  let summary :=
    EvSummary (length tests) (length (names_with PASSED items))
      (length (names_with FAILED items)) (length (names_with TIMEOUT items)) in
  let all_passed :=
    is_nil (names_with FAILED items) && is_nil (names_with TIMEOUT items) in
  let finish : list event :=
    if all_passed then [EvPrint "All tests passed!"] else [] in
  let code : Z := if all_passed then 0 else 1 in
  if no_compare a then (Raised (SystemExit code), summary :: finish)
  else if compare_script_exists env then
    match compare_outcome env with
    | Some e => (Raised e, [summary; EvPrint "Running comparison..."])
    | None =>
        (Raised (SystemExit code),
         [summary; EvPrint "Running comparison...";
          EvRun ["compare_all.py";
                 "output/chipyard.harness.TestHarness." +:+ config a]] ++ finish)
    end
  else
    (Raised (SystemExit code),
     [summary; EvPrint "Running comparison...";
      EvPrint "Warning: compare_all.py not found, skipping comparison"] ++ finish).

(** The events that the pool and the report of [main] can emit in a driver
    whose registry is [reg]: no [os.killpg], no removal of a directory, no
    result file, and signals to registered handles only. *)
Definition is_driver_event (reg : list Popen) (ev : event) : bool :=
  match ev with
  | EvPrint _ | EvSleep _ | EvSubmit _ | EvSummary _ _ _ _ | EvRun _ => true
  | EvSendSignal p _ => bool_decide (mkPopen p ∈ reg)
  | _ => false
  end.

(* ===================================================================== *)
(** * [compare_all.py] and [compare.py] *)
(* ===================================================================== *)

(** [PurePath.suffix]: the last suffix of a name, with its dot; a leading or
    a trailing dot starts none. *)
Definition suffix_of_name (name : string) : string :=
  match rfind_dot name 0 with
  | Some i =>
      if (0 <? i)%nat && (i <? String.length name - 1)%nat
      then String.substring i (String.length name - i) name
      else EmptyString
  | None => EmptyString
  end.

(** [str.split(sep)] for a one-character separator, [cur] being the part
    read so far. *)
Fixpoint split_at (sep : ascii) (s cur : string) : list string :=
  match s with
  | EmptyString => [cur]
  | String c rest =>
      if Ascii.eqb c sep then cur :: split_at sep rest EmptyString
      else split_at sep rest (cur +:+ String c EmptyString)
  end.

(** [Path(text)] on POSIX: the root, if any (one slash, or exactly two),
    then the parts between slashes, empty parts and [.] dropped. *)
Definition Path_of_string (s : string) : Path :=
  (if String.prefix "///" s then ["/"]
   else if String.prefix "//" s then ["//"]
   else if String.prefix "/" s then ["/"]
   else [])
  ++ List.filter (fun part => negb (String.eqb part EmptyString)
                               && negb (String.eqb part "."))
       (split_at "/" s EmptyString).

Definition is_root (part : string) : bool := String.prefix "/" part.

(** [PurePath.parent]: the path without its last part; a bare root is its
    own parent. *)
Definition parent (p : Path) : Path :=
  match p with
  | [] => []
  | [x] => if is_root x then [x] else []
  | _ => removelast p
  end.

(** [str(path)], the root written without a slash of its own after it. *)
Definition show_path (p : Path) : string :=
  match p with
  | [] => "."
  | x :: rest => if is_root x then x +:+ String.concat "/" rest
                 else String.concat "/" p
  end.

Module CompareAll.

(** What the outside world answers to [compare_all.py]. *)
Record env : Type := mkEnv {
  (** [sys.argv] *)
  argv : list string;
  (** [Path(__file__).parent] *)
  script_dir : Path;
  (** [path.exists()] *)
  path_exists : Path -> bool;
  (** [asm_dir.glob('*.o')] *)
  glob_o : Path -> list Path;
  (** [open(compare_log, 'w')] *)
  open_write : Path -> option exn;
  (** [subprocess.run(cmd, ..., timeout=60)]: it returns, whatever the exit
      status of the command, or it raises *)
  run_compare : list string -> option exn;
  (** [open(compare_log, 'r')] and [log_f.read()] *)
  read_log : Path -> result string
}.

(** The three variables the loop updates. *)
Record tally : Type := mkTally {
  results : list (string * bool * string);
  pass_count : nat;
  fail_count : nat
}.

Definition record_pass (st : tally) (test_name : string) : tally :=
  mkTally (results st ++ [(test_name, true, "PASSED")]) (S (pass_count st))
    (fail_count st).

Definition record_fail (st : tally) (test_name reason : string) : tally :=
  mkTally (results st ++ [(test_name, false, reason)]) (pass_count st)
    (S (fail_count st)).

(** The command line of one comparison. *)
Definition compare_command (compare_script rocket_log spike_log : Path)
  : list string :=
  if String.eqb (suffix_of_name (path_name compare_script)) ".py"
  then [show_path compare_script; "--rtl"; show_path rocket_log;
        "--spike"; show_path spike_log]
  else [show_path compare_script; show_path rocket_log; show_path spike_log].

Definition rocket_log_of (log_dir obj : Path) : Path :=
  log_dir ++ [path_stem obj +:+ ".out"].
Definition spike_log_of (spike_log_dir obj : Path) : Path :=
  spike_log_dir ++ [path_stem obj +:+ ".log"].
Definition compare_log_of (log_dir obj : Path) : Path :=
  log_dir ++ ["compare_" +:+ path_stem obj +:+ ".log"].

(** The body of the loop over [test_objects]. *)
Definition compare_one (e : env) (log_dir spike_log_dir compare_script obj : Path)
    (st : tally) : M tally :=
  let test_name := path_stem obj in
  let rocket_log := rocket_log_of log_dir obj in
  let spike_log := spike_log_of spike_log_dir obj in
  let compare_log := compare_log_of log_dir obj in
  if negb (path_exists e rocket_log) then
    mret (record_fail st test_name
            ("Rocket log not found: " +:+ show_path rocket_log))
  else if negb (path_exists e spike_log) then
    mret (record_fail st test_name
            ("Spike log not found: " +:+ show_path spike_log))
  else
    try_except
      (let cmd := compare_command compare_script rocket_log spike_log in
       lift_result (from_option Raised (Ok tt) (open_write e compare_log));;
       attempt (run_compare e cmd) (EvRun cmd);;
       log_content ← lift_result (read_log e compare_log);
       if Re.str_in "PASSED" log_content then
         print ("[PASS] " +:+ test_name);;
         mret (record_pass st test_name)
       else
         print ("[FAIL] " +:+ test_name);;
         mret (record_fail st test_name
                 ("Missing PASSED in " +:+ show_path compare_log)))
      is_Exception
      (fun ex =>
         if is_TimeoutExpired ex then
           print ("[FAIL] " +:+ test_name +:+ " (timeout)");;
           mret (record_fail st test_name "Comparison timed out")
         else
           print ("[FAIL] " +:+ test_name +:+ " (error: " +:+ exn_text ex +:+ ")");;
           mret (record_fail st test_name ("Exception: " +:+ exn_text ex))).

Fixpoint compare_loop (e : env) (log_dir spike_log_dir compare_script : Path)
    (test_objects : list Path) (st : tally) : M tally :=
  match test_objects with
  | [] => mret st
  | obj :: rest =>
      st' ← compare_one e log_dir spike_log_dir compare_script obj st;
      compare_loop e log_dir spike_log_dir compare_script rest st'
  end.

(** The summary and the exit status, after the loop. *)
Definition summarize (test_objects : list Path) (st : tally) : M unit :=
  print "Summary";;
  print ("Total:  " +:+ pretty (length test_objects));;
  print ("Passed: " +:+ pretty (pass_count st));;
  print ("Failed: " +:+ pretty (fail_count st));;
  (if (0 <? fail_count st)%nat then
     print "Failed tests:";;
     for_each (results st)
       (fun entry =>
          if snd (fst entry) then mret tt
          else print ("  - " +:+ fst (fst entry) +:+ ": " +:+ snd entry))
   else mret tt);;
  sys_exit (if (fail_count st =? 0)%nat then 0 else 1).

(** [main()] of [compare_all.py].  What goes to [stderr] is recorded like
    what goes to [stdout]; the rules of [=] and the blank lines are left out,
    as everywhere. *)
Definition main (e : env) : M unit :=
  match argv e with
  | [_; arg1; arg2] =>
      let asm_dir := Path_of_string arg1 in
      let log_dir := Path_of_string arg2 in
      let spike_log_dir := parent asm_dir ++ ["spike_sim"] in
      if negb (path_exists e asm_dir) then
        print ("Error: ASM directory not found: " +:+ show_path asm_dir);;
        sys_exit 1
      else if negb (path_exists e log_dir) then
        print ("Error: Log directory not found: " +:+ show_path log_dir);;
        sys_exit 1
      else
        let compare_script := script_dir e ++ ["compare.py"] in
        if negb (path_exists e compare_script) then sys_exit 1
        else
          let test_objects := sorted (glob_o e asm_dir) in
          if is_nil test_objects then
            print ("Warning: No .o files found in " +:+ show_path asm_dir);;
            sys_exit 0
          else
            print ("Found " +:+ pretty (length test_objects) +:+ " tests to compare");;
            print ("ASM dir:       " +:+ show_path asm_dir);;
            print ("Rocket logs:   " +:+ show_path log_dir);;
            print ("Spike logs:    " +:+ show_path spike_log_dir);;
            print ("Compare tool:  " +:+ path_name compare_script);;
            st ← compare_loop e log_dir spike_log_dir compare_script test_objects
                   (mkTally [] 0 0);
            summarize test_objects st
  | _ =>
      print "Usage: compare_all.py <asm_dir> <log_dir>";;
      print "Example: ./compare_all.py /root/riscv-dv/out/asm_test output/chipyard.harness.TestHarness.RV32RocketConfig";;
      sys_exit 1
  end.

(** The comparison command of a test runs to its end: both logs exist, the
    comparison log can be opened, and [subprocess.run] returns. *)
Definition ran (e : env) (log_dir spike_log_dir compare_script obj : Path) : bool :=
  path_exists e (rocket_log_of log_dir obj)
  && path_exists e (spike_log_of spike_log_dir obj)
  && bool_decide (open_write e (compare_log_of log_dir obj) = None)
  && bool_decide
       (run_compare e
          (compare_command compare_script (rocket_log_of log_dir obj)
             (spike_log_of spike_log_dir obj)) = None).

(** A comparison counts as passed when its command ran to its end and the
    comparison log read back holds "PASSED". *)
Definition verdict (e : env) (log_dir spike_log_dir compare_script obj : Path)
  : bool :=
  ran e log_dir spike_log_dir compare_script obj
  && match read_log e (compare_log_of log_dir obj) with
     | Ok log_content => Re.str_in "PASSED" log_content
     | Raised _ => false
     end.

(** No call of the outside world raises anything but an [Exception]. *)
Definition tame (e : env) : Prop :=
  (forall p ex, open_write e p = Some ex -> is_Exception ex = true)
  /\ (forall cmd ex, run_compare e cmd = Some ex -> is_Exception ex = true)
  /\ (forall p ex, read_log e p = Raised ex -> is_Exception ex = true).

Definition is_run (ev : event) : bool :=
  match ev with
  | EvRun _ => true
  | _ => false
  end.

(** The checks before the loop all pass: three arguments, both directories
    and [compare.py] exist. *)
Definition ready (e : env) : bool :=
  match argv e with
  | [_; arg1; arg2] =>
      path_exists e (Path_of_string arg1)
      && path_exists e (Path_of_string arg2)
      && path_exists e (script_dir e ++ ["compare.py"])
  | _ => false
  end.

End CompareAll.

Module Compare.

(** What the outside world answers to [compare.py], after its two required
    arguments were parsed. *)
Record env : Type := mkEnv {
  rtl : string;
  spike : string;
  script_dir : Path;
  riscv_dv_dir_exists : bool;
  (** [subprocess.run(cmd, check=True)]: it raises when the command cannot
      be run or exits with a non-zero status *)
  run_checked : list string -> option exn
}.

Definition riscv_dv_dir (e : env) : Path :=
  script_dir e ++ [".."; ".."; "toolchains"; "riscv-tools"; "riscv-dv"].

Definition rtl_to_csv (e : env) : list string :=
  ["python3";
   show_path (riscv_dv_dir e ++ ["scripts"; "rocket_log_to_trace_csv.py"]);
   "--log"; rtl e; "--csv"; rtl e +:+ ".csv"; "--rv32"].

Definition spike_to_csv (e : env) : list string :=
  ["python3";
   show_path (riscv_dv_dir e ++ ["scripts"; "spike_log_to_trace_csv.py"]);
   "--log"; spike e; "--csv"; spike e +:+ ".csv"; "-f"].

Definition trace_compare (e : env) : list string :=
  ["python3";
   show_path (riscv_dv_dir e ++ ["scripts"; "instr_trace_compare.py"]);
   "--csv_file_1"; rtl e +:+ ".csv"; "--csv_file_2"; spike e +:+ ".csv"].

(** [main()] of [compare.py] *)
Definition main (e : env) : M unit :=
  if negb (riscv_dv_dir_exists e) then
    print ("Error: riscv-dv directory not found at " +:+ show_path (riscv_dv_dir e));;
    sys_exit 1
  else
    let rtl_csv := rtl e +:+ ".csv" in
    let spike_csv := spike e +:+ ".csv" in
    print ("Converting RTL dump to CSV: " +:+ rtl e +:+ " -> " +:+ rtl_csv);;
    attempt (run_checked e (rtl_to_csv e)) (EvRun (rtl_to_csv e));;
    print ("Converting Spike dump to CSV: " +:+ spike e +:+ " -> " +:+ spike_csv);;
    attempt (run_checked e (spike_to_csv e)) (EvRun (spike_to_csv e));;
    print ("Comparing traces: " +:+ rtl_csv +:+ " vs " +:+ spike_csv);;
    attempt (run_checked e (trace_compare e)) (EvRun (trace_compare e));;
    print "Comparison complete!".

(** The commands of a list that run to their end when they are run in order
    up to the first one that raises, and what that one raises. *)
Fixpoint first_failure (run : list string -> option exn) (cmds : list (list string))
  : list (list string) * option exn :=
  match cmds with
  | [] => ([], None)
  | cmd :: rest =>
      match run cmd with
      | Some ex => ([], Some ex)
      | None => let '(done, failure) := first_failure run rest in
                (cmd :: done, failure)
      end
  end.

Definition steps (e : env) : list (list string) :=
  [rtl_to_csv e; spike_to_csv e; trace_compare e].

End Compare.

Module CompareSample.

(** Two object files; the Spike log of [b] is missing, the comparison of [a]
    reports a match. *)
Definition env : CompareAll.env :=
  CompareAll.mkEnv
    ["compare_all.py"; "/out/asm_test"; "output/cfg"]
    ["/"; "chipyard"; "sims"; "vcs"]
    (fun p => negb (bool_decide (p = ["/"; "out"; "spike_sim"; "b.log"])))
    (fun _ => [["/"; "out"; "asm_test"; "b.o"]; ["/"; "out"; "asm_test"; "a.o"]])
    (fun _ => None)
    (fun _ => None)
    (fun p => if bool_decide (p = ["output"; "cfg"; "compare_a.log"])
              then Ok "[PASSED]: 10 matched" else Ok "mismatch").

(** The same, started without its second argument. *)
Definition short_env : CompareAll.env :=
  CompareAll.mkEnv ["compare_all.py"; "/out/asm_test"]
    (CompareAll.script_dir env) (CompareAll.path_exists env)
    (CompareAll.glob_o env) (CompareAll.open_write env)
    (CompareAll.run_compare env) (CompareAll.read_log env).

End CompareSample.

Example stem_of_object_file : stem_of_name "riscv_arithmetic_basic_test_0.o"
                              = "riscv_arithmetic_basic_test_0".
Proof. reflexivity. Qed.

Example stem_keeps_inner_dots : stem_of_name "a.tar.gz" = "a.tar".
Proof. reflexivity. Qed.

Example stem_of_dot_file : stem_of_name ".o" = ".o".
Proof. reflexivity. Qed.

Example error_pattern_ignores_case :
  check_log_for_pattern (Some ["boot"; "xx ASSERTION FAILED: foo"]) pat_error = true.
Proof. vm_compute. reflexivity. Qed.

Example fatal_pattern_is_case_sensitive :
  check_log_for_pattern (Some ["fatal: TestDriver at time 5 ps"]) pat_max_cycles
  = false.
Proof. vm_compute. reflexivity. Qed.

Example sample_run :
  main (Sample.driver ["b.o"; "a.o"]) (Sample.cmdline "*.o" EmptyString) Sample.start
  = (Raised (SystemExit 0),
     mkWorld []
       [EvPrint "RISC-V DV Parallel Test Runner";
        EvSubmit (Sample.asm_test "a.o"); EvSubmit (Sample.asm_test "b.o");
        EvPrint "Waiting for all tests to complete..."; EvSleep 1;
        EvSummary 2 2 0 0; EvPrint "All tests passed!";
        EvRmtree "/tmp/test_results_x"]).
Proof. vm_compute. reflexivity. Qed.

Example sample_single :
  run_single_test Sample.expiring_test (Sample.asm_test "t1.o") "RV32RocketConfig"
    1000 false "logs" "/tmp/r" 3600 Sample.start
  = (Ok ("t1", TIMEOUT),
     mkWorld []
       [EvPrint "Starting: t1";
        EvPopen ["make"; "CONFIG=RV32RocketConfig";
                 "BINARY=riscv-dv/out/asm_test/t1.o"; "TIMEOUT_CYCLES=1000";
                 "run-binary"] "logs/t1.log" (mkPopen 4242);
        EvKillpg 4242 SIGTERM; EvSleep 1; EvKillpg 4242 SIGKILL;
        EvWriteText "/tmp/r/t1.result" "TIMEOUT:t1";
        EvPrint "TIMEOUT: t1 (wall-clock)"]).
Proof. vm_compute. reflexivity. Qed.

(* ===================================================================== *)
(** * Reasoning about runs *)
(* ===================================================================== *)

Ltac unfold_run :=
  unfold mbind, M_bind, bind, mret, M_ret, ret, try_pass, try_except,
    try_finally, write_text, killpg, send_signal, attempt, print, sleep,
    emit, sys_exit, raise, lift_result, registry_append, registry_discard,
    get_active_processes in *.

Lemma remove_first_fresh (proc : Popen) (l : list Popen) :
  proc ∉ l -> remove_first proc (l ++ [proc]) = l.
Proof.
  induction l as [|x l IH]; intros Hfresh; simpl.
  - rewrite decide_True by reflexivity. reflexivity.
  - apply not_elem_of_cons in Hfresh as [Hne Hl].
    rewrite decide_False by congruence.
    f_equal. apply IH, Hl.
Qed.

Lemma registry_discard_after_append (proc : Popen) (reg : list Popen) (tr : list event) :
  proc ∉ reg ->
  registry_discard proc (mkWorld (reg ++ [proc]) tr) = (Ok tt, mkWorld reg tr).
Proof.
  intros Hfresh. unfold registry_discard. simpl.
  rewrite bool_decide_eq_true_2 by (apply elem_of_app; right; apply list_elem_of_singleton; reflexivity).
  rewrite remove_first_fresh by assumption. reflexivity.
Qed.

Lemma supervise_unfold (env : test_env) (cmd : list string) (log_file : string)
    (wall_timeout : Z) (reg : list Popen) (tr : list event) :
  (forall proc, env_popen env = Ok proc -> proc ∉ reg) ->
  supervise env cmd log_file wall_timeout (mkWorld reg tr)
  = supervise_paths env cmd log_file reg tr.
Proof.
  intros Hfresh. unfold supervise, wait_or_escalate, supervise_paths.
  destruct (env_open env) as [e|]; unfold_run; simpl; [reflexivity|].
  destruct (env_popen env) as [proc|e]; simpl; [|reflexivity].
  specialize (Hfresh proc eq_refl).
  pose proof (registry_discard_after_append proc reg) as Hdiscard.
  unfold registry_discard in Hdiscard. simpl in Hdiscard.
  destruct (env_wait env) as [code|e]; simpl.
  { rewrite Hdiscard by assumption. reflexivity. }
  destruct (is_TimeoutExpired e); simpl.
  - destruct (env_killpg_term env); simpl.
    + rewrite Hdiscard by assumption. reflexivity.
    + destruct (env_killpg_kill env); simpl; rewrite Hdiscard by assumption;
        rewrite <- ?app_assoc; reflexivity.
  - rewrite Hdiscard by assumption. reflexivity.
Qed.

Lemma supervise_paths_registry (env : test_env) (cmd : list string)
    (log_file : string) (reg : list Popen) (tr : list event) :
  active_processes (snd (supervise_paths env cmd log_file reg tr)) = reg.
Proof.
  unfold supervise_paths.
  repeat (match goal with
          | |- context [match ?x with _ => _ end] => destruct x
          end; simpl); reflexivity.
Qed.

(** Printing and writing leave the registry alone. *)
Lemma attempt_registry (outcome : option exn) (ev : event) (w : world) :
  active_processes (snd (attempt outcome ev w)) = active_processes w.
Proof. destruct outcome; reflexivity. Qed.

Lemma run_single_test_unfold (env : test_env) (test_file : Path) (config : string)
    (timeout_cycles : Z) (debug : bool) (log_dir result_dir : string)
    (wall_timeout : Z) (reg : list Popen) (tr : list event) :
  (forall proc, env_popen env = Ok proc -> proc ∉ reg) ->
  run_single_test env test_file config timeout_cycles debug log_dir result_dir
    wall_timeout (mkWorld reg tr)
  = run_single_test_paths env test_file config timeout_cycles debug log_dir
      result_dir reg tr.
Proof.
  intros Hfresh. unfold run_single_test, run_single_test_paths.
  unfold mbind, M_bind, bind, try_except.
  change (print ?l (mkWorld reg tr)) with (Ok tt, mkWorld reg (tr ++ [EvPrint l])).
  cbv iota beta.
  rewrite supervise_unfold by assumption.
  destruct (supervise_paths _ _ _ _ _) as [[exit_code|e] [reg' tr']]; simpl.
  - destruct (determine_result exit_code (env_log env)) as [st reason]. simpl.
    unfold_run. destruct (env_write_status env); simpl; [reflexivity|].
    rewrite <- app_assoc. reflexivity.
  - destruct (is_Exception e); [|reflexivity].
    unfold_run. simpl. destruct (env_write_failed env); simpl; [reflexivity|].
    reflexivity.
Qed.

Lemma run_single_test_paths_registry (env : test_env) (test_file : Path)
    (config : string) (timeout_cycles : Z) (debug : bool)
    (log_dir result_dir : string) (reg : list Popen) (tr : list event) :
  active_processes
    (snd (run_single_test_paths env test_file config timeout_cycles debug log_dir
            result_dir reg tr)) = reg.
Proof.
  unfold run_single_test_paths.
  pose proof (supervise_paths_registry env
    (build_command test_file config timeout_cycles debug)
    (path_join log_dir (path_stem test_file +:+ ".log")) reg
    (tr ++ [EvPrint ("Starting: " +:+ path_stem test_file)])) as Hreg.
  destruct (supervise_paths _ _ _ _ _) as [[exit_code|e] [reg' tr']];
    simpl in Hreg; subst reg'; simpl.
  - destruct (env_write_status env); reflexivity.
  - destruct (is_Exception e); [|reflexivity].
    destruct (env_write_failed env); reflexivity.
Qed.

(** While the supervisor waits and escalates, the handle stays registered. *)
Lemma registered_while_supervised (env : test_env) (proc : Popen) (w : world) :
  proc ∈ active_processes (snd (wait_or_escalate env (snd (registry_append proc w)))).
Proof.
  assert (Hin : proc ∈ active_processes w ++ [proc])
    by (apply elem_of_app; right; apply list_elem_of_singleton; reflexivity).
  unfold wait_or_escalate. unfold_run. simpl.
  destruct (env_wait env) as [code|e]; simpl; [exact Hin|].
  destruct (is_TimeoutExpired e); simpl; [|exact Hin].
  destruct (env_killpg_term env); simpl; [exact Hin|].
  destruct (env_killpg_kill env); simpl; exact Hin.
Qed.

(** ** C7 *)

(** C7: whatever the outside world answers (normal exit, wall-clock
    timeout, or a failure at any step), the handle that is appended to
    [active_processes] after the spawn, and that stays there while the
    supervisor waits, is no longer in the registry when [run_single_test] is
    over: the call leaves the registry as it found it. *)
Theorem registry_restored_on_every_path (env : test_env) (test_file : Path)
    (config : string) (timeout_cycles : Z) (debug : bool)
    (log_dir result_dir : string) (wall_timeout : Z) (w : world)
    (Hfresh : forall proc, env_popen env = Ok proc -> proc ∉ active_processes w) :
  let w' := snd (run_single_test env test_file config timeout_cycles debug
                   log_dir result_dir wall_timeout w) in
  active_processes w' = active_processes w
  /\ (forall proc, env_popen env = Ok proc -> proc ∉ active_processes w')
  /\ (forall proc w0,
         proc ∈ active_processes
                  (snd (wait_or_escalate env (snd (registry_append proc w0))))).
Proof.
  simpl. destruct w as [reg tr]. simpl in Hfresh.
  rewrite run_single_test_unfold by assumption.
  rewrite run_single_test_paths_registry. simpl.
  split; [reflexivity|]. split; [assumption|].
  intros proc w0. apply registered_while_supervised.
Qed.

Lemma registry_restored_on_every_path_witness :
  let w := mkWorld [mkPopen 7] [] in
  let w' := snd (run_single_test Sample.expiring_test (Sample.asm_test "t1.o")
                   "RV32RocketConfig" 1000 false "logs" "/tmp/r" 3600 w) in
  active_processes w' = [mkPopen 7]
  /\ (forall proc, env_popen Sample.expiring_test = Ok proc -> proc ∉ active_processes w')
  /\ (forall proc w0,
         proc ∈ active_processes
                  (snd (wait_or_escalate Sample.expiring_test
                          (snd (registry_append proc w0))))).
Proof.
  apply (registry_restored_on_every_path Sample.expiring_test (Sample.asm_test "t1.o")
           "RV32RocketConfig" 1000 false "logs" "/tmp/r" 3600 (mkWorld [mkPopen 7] [])).
  intros proc Hproc. simpl in Hproc. injection Hproc as <-.
  simpl. intros Hin. apply list_elem_of_singleton in Hin. discriminate Hin.
Defined.

(** ** C2 *)

(** C2, as amended: when the command is still running at the wall-clock
    deadline and its process group takes the termination signal, the
    supervisor signals SIGTERM to the group, sleeps one second, signals
    SIGKILL to the same group (a failure of that last call is ignored) and
    reports exit code 124; when the command exits in time it reports the
    command's own exit code and signals nothing.  The exit code is all it
    reports: it reads as timed out exactly when it is 124. *)
Theorem supervise_timeout_and_exit (env : test_env) (cmd : list string)
    (log_file : string) (wall_timeout : Z) (reg : list Popen) (tr : list event)
    (proc : Popen)
    (Hopen : env_open env = None) (Hspawn : env_popen env = Ok proc)
    (Hfresh : proc ∉ reg) :
  let r := supervise env cmd log_file wall_timeout (mkWorld reg tr) in
  (forall text,
      env_wait env = Raised (TimeoutExpired text) ->
      env_killpg_term env = None ->
      fst r = Ok 124
      /\ timed_out 124 = true
      /\ trace (snd r)
         = tr ++ [EvPopen cmd log_file proc;
                  EvKillpg (env_pgid env) SIGTERM; EvSleep 1]
              ++ match env_killpg_kill env with
                 | None => [EvKillpg (env_pgid env) SIGKILL]
                 | Some _ => []
                 end)
  /\ (forall code,
         env_wait env = Ok code ->
         fst r = Ok code
         /\ trace (snd r) = tr ++ [EvPopen cmd log_file proc]
         /\ (timed_out code = false <-> code <> 124)).
Proof.
  simpl. rewrite supervise_unfold
    by (intros p Hp; rewrite Hspawn in Hp; injection Hp as <-; exact Hfresh).
  unfold supervise_paths. rewrite Hopen, Hspawn. split.
  - intros text Hwait Hterm. rewrite Hwait, Hterm. simpl.
    split; [reflexivity|]. split; [reflexivity|].
    rewrite <- !app_assoc. reflexivity.
  - intros code Hwait. rewrite Hwait. simpl.
    split; [reflexivity|]. split; [reflexivity|].
    unfold timed_out. rewrite bool_decide_eq_false. reflexivity.
Qed.

Lemma supervise_timeout_and_exit_witness :
  let r := supervise Sample.expiring_test ["make"] "logs/t1.log" 3600 Sample.start in
  fst r = Ok 124
  /\ timed_out 124 = true
  /\ trace (snd r)
     = [EvPopen ["make"] "logs/t1.log" (mkPopen 4242);
        EvKillpg 4242 SIGTERM; EvSleep 1; EvKillpg 4242 SIGKILL].
Proof.
  refine (proj1 (supervise_timeout_and_exit Sample.expiring_test ["make"]
                   "logs/t1.log" 3600 [] [] (mkPopen 4242) _ _ _)
            "timed out" _ _).
  - reflexivity.
  - reflexivity.
  - apply not_elem_of_nil.
  - reflexivity.
  - reflexivity.
Defined.

(** C2 as stated fails: a command that exits in time with status 124 and a
    command killed at the deadline make the supervisor report the very same
    value, so nothing computed from its report can be false for the first and
    true for the second. *)
Lemma no_timed_out_flag_in_report :
  ~ exists timedOut : result Z -> bool,
      timedOut (fst (supervise Sample.expiring_test ["make"] "logs/t1.log" 3600
                       Sample.start)) = true
      /\ timedOut (fst (supervise Sample.exit_124_test ["make"] "logs/t1.log" 3600
                          Sample.start)) = false.
Proof.
  intros (timedOut & Hexpired & Hexit).
  change (timedOut (Ok 124) = true) in Hexpired.
  change (timedOut (Ok 124) = false) in Hexit.
  congruence.
Qed.

(** ** C10 *)

(** C10: a command that exits by itself with status 124 is classified
    exactly like a wall-clock expiry: TIMEOUT with reason "(wall-clock)",
    whatever the log holds, and [run_single_test] returns, writes and prints
    the same as it does when the wall clock expires (the expiry adds only
    the signals and the sleep). *)
Theorem exit_124_is_wall_clock_timeout (env : test_env) (test_file : Path)
    (config : string) (timeout_cycles : Z) (debug : bool)
    (log_dir result_dir : string) (wall_timeout : Z) (w : world) (text : string)
    (Hfresh : forall proc, env_popen env = Ok proc -> proc ∉ active_processes w)
    (Hexit : env_wait env = Ok 124) :
  let run e := run_single_test e test_file config timeout_cycles debug log_dir
                 result_dir wall_timeout w in
  determine_result 124 (env_log env) = (TIMEOUT, "(wall-clock)")
  /\ fst (run env) = fst (run (expiring env text))
  /\ List.filter (fun ev => negb (is_escalation ev)) (trace (snd (run (expiring env text))))
     = List.filter (fun ev => negb (is_escalation ev)) (trace (snd (run env)))
  /\ (env_open env = None -> (exists proc, env_popen env = Ok proc) ->
      env_write_status env = None ->
      fst (run env) = Ok (path_stem test_file, TIMEOUT)).
Proof.
  simpl. split; [reflexivity|].
  destruct w as [reg tr]. simpl in Hfresh.
  rewrite !run_single_test_unfold by assumption.
  unfold run_single_test_paths, supervise_paths. simpl. rewrite Hexit.
  destruct (env_open env) as [e|]; simpl.
  { split; [reflexivity|]. split; [reflexivity|]. intros; discriminate. }
  destruct (env_popen env) as [proc|e]; simpl.
  2:{ split; [reflexivity|]. split; [reflexivity|]. intros _ [proc Hproc]. discriminate. }
  destruct (env_write_status env) as [e|]; simpl.
  - split; [reflexivity|]. split; [|intros; discriminate].
    rewrite !List.filter_app. simpl.
    destruct (env_killpg_kill env); simpl; rewrite ?app_nil_r; reflexivity.
  - split; [reflexivity|]. split; [|reflexivity].
    rewrite !List.filter_app. simpl.
    destruct (env_killpg_kill env); simpl; rewrite ?app_nil_r; reflexivity.
Qed.

Lemma exit_124_is_wall_clock_timeout_witness :
  let run e := run_single_test e (Sample.asm_test "t1.o") "RV32RocketConfig" 1000
                 false "logs" "/tmp/r" 3600 Sample.start in
  determine_result 124 (Some ["ok"]) = (TIMEOUT, "(wall-clock)")
  /\ fst (run Sample.exit_124_test) = fst (run (expiring Sample.exit_124_test "late"))
  /\ List.filter (fun ev => negb (is_escalation ev))
       (trace (snd (run (expiring Sample.exit_124_test "late"))))
     = List.filter (fun ev => negb (is_escalation ev))
         (trace (snd (run Sample.exit_124_test)))
  /\ (env_open Sample.exit_124_test = None ->
      (exists proc, env_popen Sample.exit_124_test = Ok proc) ->
      env_write_status Sample.exit_124_test = None ->
      fst (run Sample.exit_124_test) = Ok ("t1", TIMEOUT)).
Proof.
  apply (exit_124_is_wall_clock_timeout Sample.exit_124_test (Sample.asm_test "t1.o")
           "RV32RocketConfig" 1000 false "logs" "/tmp/r" 3600 Sample.start "late").
  - intros proc _. apply not_elem_of_nil.
  - reflexivity.
Defined.

(* --------------------------------------------------------------------- *)
(** ** The cleanup handler, the pool and the report, step by step *)
(* --------------------------------------------------------------------- *)

Lemma for_each_signals (outcome : Popen -> signal -> option exn) (sig : signal)
    (procs : list Popen) (reg : list Popen) (tr : list event) :
  for_each procs (fun proc => try_pass (send_signal outcome proc sig)) (mkWorld reg tr)
  = (Ok tt, mkWorld reg (tr ++ cleanup_signals outcome sig procs)).
Proof.
  revert tr. induction procs as [|proc procs IH]; intros tr; simpl.
  - rewrite app_nil_r. reflexivity.
  - unfold mbind, M_bind, bind. unfold try_pass at 1, try_except, send_signal, attempt.
    destruct (outcome proc sig) as [e|]; simpl.
    + unfold raise, mret, M_ret, ret. simpl. apply IH.
    + unfold emit. simpl. rewrite IH. rewrite <- app_assoc. reflexivity.
Qed.

Lemma cleanup_handler_unfold (outcome : Popen -> signal -> option exn)
    (reg : list Popen) (tr : list event) :
  cleanup_handler outcome (mkWorld reg tr)
  = (Raised (SystemExit 130), mkWorld reg (tr ++ cleanup_events outcome reg)).
Proof.
  unfold cleanup_handler, cleanup_events.
  unfold mbind, M_bind, bind, print, emit, get_active_processes. simpl.
  rewrite for_each_signals. unfold sleep, emit. simpl.
  rewrite for_each_signals. unfold sys_exit, raise.
  rewrite <- !app_assoc. reflexivity.
Qed.

Lemma submit_all_unfold (env : main_env) (a : args) (tests : list Path)
    (reg : list Popen) (tr : list event) :
  submit_all env a tests (mkWorld reg tr)
  = (Ok (map (worker_future env a) tests), mkWorld reg (tr ++ map EvSubmit tests)).
Proof.
  revert tr. induction tests as [|t tests IH]; intros tr; simpl.
  - rewrite app_nil_r. reflexivity.
  - unfold mbind, M_bind, bind, submit. unfold mbind, M_bind, bind, emit. simpl.
    rewrite IH. unfold mret, M_ret, ret. rewrite <- app_assoc. reflexivity.
Qed.

Lemma checkpoint_skip (env : main_env) (k : nat) (w : world) :
  interrupt_at env <> Some k -> checkpoint env k w = (Ok tt, w).
Proof.
  intros Hk. unfold checkpoint. rewrite decide_False by assumption. reflexivity.
Qed.

Lemma checkpoint_hit (env : main_env) (k : nat) (reg : list Popen) (tr : list event) :
  interrupt_at env = Some k ->
  checkpoint env k (mkWorld reg tr)
  = (Raised (SystemExit 130),
     mkWorld reg (tr ++ cleanup_events (signal_outcome env) reg)).
Proof.
  intros Hk. unfold checkpoint. rewrite decide_True by assumption.
  apply cleanup_handler_unfold.
Qed.

(** One iteration without a signal, for a future that [except Exception]
    can handle. *)
Lemma pool_step (env : main_env) (k : nat) (f : future) (rest : list future)
    (results : gmap string status) (reg : list Popen) (tr : list event) :
  interrupt_at env <> Some k ->
  future_ok f = true ->
  pool_loop env k (f :: rest) results (mkWorld reg tr)
  = pool_loop env (S k) rest (record_future results f)
      (mkWorld reg (tr ++ future_events f)).
Proof.
  intros Hk Hok. destruct f as [test_file outcome]. simpl.
  unfold mbind at 1, M_bind at 1, bind at 1. unfold try_except.
  unfold mbind at 1, M_bind at 1, bind at 1.
  rewrite checkpoint_skip by assumption.
  unfold future_ok in Hok. simpl in Hok.
  unfold record_future, future_key, future_status, future_events. simpl.
  destruct outcome as [[name st]|e]; simpl.
  - rewrite app_nil_r. reflexivity.
  - unfold mbind, M_bind, bind, lift_result, raise. simpl. rewrite Hok.
    unfold print, emit. simpl. reflexivity.
Qed.

Lemma pool_loop_undisturbed (env : main_env) (k : nat) (completed : list future)
    (results : gmap string status) (reg : list Popen) (tr : list event) :
  undisturbed env k (length completed) ->
  forallb future_ok completed = true ->
  pool_loop env k completed results (mkWorld reg tr)
  = (Ok (foldl record_future results completed),
     mkWorld reg (tr ++ flat_map future_events completed)).
Proof.
  revert k results tr.
  induction completed as [|f rest IH]; intros k results tr Hquiet Hok.
  - simpl. rewrite app_nil_r. reflexivity.
  - simpl in Hok. apply andb_true_iff in Hok as [Hf Hrest].
    rewrite pool_step; [|intros Hk; apply Hquiet in Hk; simpl in Hk; lia|assumption].
    rewrite IH; [|intros j Hj; apply Hquiet in Hj; simpl in Hj; lia|assumption].
    simpl. rewrite <- app_assoc. reflexivity.
Qed.



Lemma forallb_elem_of {A} (f : A -> bool) (l : list A) :
  forallb f l = true <-> forall x, x ∈ l -> f x = true.
Proof.
  rewrite forallb_forall. split; intros H x Hx; apply H.
  - apply list_elem_of_In, Hx.
  - apply list_elem_of_In, Hx.
Qed.

Lemma completed_ok (env : main_env) (a : args) (tests : list Path) :
  (forall fs, as_completed env fs ≡ₚ fs) ->
  (forall t, t ∈ tests -> future_ok (worker_future env a t) = true) ->
  forallb future_ok (as_completed env (map (worker_future env a) tests)) = true.
Proof.
  intros Hperm Hok. apply forallb_elem_of. intros f Hf.
  rewrite (Hperm _) in Hf. apply list_elem_of_fmap in Hf as (t & -> & Ht).
  apply Hok, Ht.
Qed.





Lemma make_executor_ok (a : args) (w : world) :
  0 < parallel a -> make_executor a w = (Ok tt, w).
Proof.
  intros Hpar. unfold make_executor. rewrite decide_False by lia. reflexivity.
Qed.


(** ** C5 *)



(** ** C3 *)

(** A process that is not itself a registered handle gets no signal from
    the cleanup handler, whatever its process group is: the handler only
    calls [terminate] and [kill] on the handles. *)
Lemma cleanup_signals_only_handles (outcome : Popen -> signal -> option exn)
    (reg : list Popen) (p : process) :
  (forall proc, proc ∈ reg -> pid proc <> proc_pid p) ->
  forallb (fun ev => negb (addressed ev p)) (cleanup_events outcome reg) = true.
Proof.
  intros Hp.
  assert (Hsig : forall sig,
             forallb (fun ev => negb (addressed ev p)) (cleanup_signals outcome sig reg)
             = true).
  { intros sig. induction reg as [|proc reg IH]; simpl; [reflexivity|].
    rewrite forallb_app, IH by (intros q Hq; apply Hp; right; exact Hq).
    destruct (outcome proc sig); simpl; [reflexivity|].
    rewrite bool_decide_eq_false_2; [reflexivity|].
    intros Heq. apply (Hp proc); [left|symmetry; exact Heq]. }
  unfold cleanup_events. rewrite !forallb_app, !Hsig. reflexivity.
Qed.

(** C3, evaluated where it fails: one registered handle, the [make]
    process 4242 that leads group 4242, and the simulator 4243 that [make]
    started in the same group.  The handler signals the leader twice, exits
    with 130, and the simulator is never signalled: the group is not
    terminated. *)
Theorem cleanup_handler_spares_the_group :
  let r := cleanup_handler (fun _ _ => None) (mkWorld [mkPopen 4242] []) in
  fst r = Raised (SystemExit 130)
  /\ trace (snd r)
     = [EvPrint "Cleaning up..."; EvSendSignal 4242 SIGTERM; EvSleep 1;
        EvSendSignal 4242 SIGKILL]
  /\ never_signalled (trace (snd r)) [mkProcess 4242 4242; mkProcess 4243 4242]
     = [mkProcess 4243 4242].
Proof. vm_compute. repeat split; reflexivity. Qed.

(** For contrast, the timeout path of the supervisor addresses the whole
    group. *)
Lemma timeout_path_signals_the_group :
  never_signalled
    (trace (snd (supervise Sample.expiring_test ["make"] "logs/t1.log" 3600
                   Sample.start)))
    [mkProcess 4242 4242; mkProcess 4243 4242] = [].
Proof. vm_compute. reflexivity. Qed.

(* --------------------------------------------------------------------- *)
(** ** The results dictionary *)
(* --------------------------------------------------------------------- *)

Lemma foldl_record_other (l : list future) (m : gmap string status) (key : string) :
  key ∉ map future_key l -> foldl record_future m l !! key = m !! key.
Proof.
  revert m. induction l as [|f l IH]; intros m Hkey; simpl; [reflexivity|].
  simpl in Hkey. apply not_elem_of_cons in Hkey as [Hne Hl].
  rewrite IH by assumption. unfold record_future.
  apply lookup_insert_ne. congruence.
Qed.

Lemma foldl_record_some_key (l : list future) (m : gmap string status) (key : string) :
  key ∈ map future_key l -> is_Some (foldl record_future m l !! key).
Proof.
  revert m. induction l as [|g l IH]; intros m Hkey; [inversion Hkey|].
  simpl in *.
  destruct (decide (key ∈ map future_key l)) as [Hin|Hout]; [apply IH, Hin|].
  apply elem_of_cons in Hkey as [->|Hkey]; [|contradiction].
  rewrite foldl_record_other by assumption.
  unfold record_future. rewrite lookup_insert_eq. eauto.
Qed.

Lemma foldl_record_some (l : list future) (m : gmap string status) (f : future) :
  f ∈ l -> is_Some (foldl record_future m l !! future_key f).
Proof.
  intros Hf. apply foldl_record_some_key, list_elem_of_fmap. eauto.
Qed.

Lemma foldl_record_nodup_key (l : list future) (m : gmap string status) (f : future) :
  NoDup (map future_key l) -> f ∈ l ->
  foldl record_future m l !! future_key f = Some (future_status f).
Proof.
  revert m. induction l as [|g l IH]; intros m Hnd Hf; [inversion Hf|].
  simpl in *. apply NoDup_cons in Hnd as [Hg Hnd].
  apply elem_of_cons in Hf as [Heq|Hf]; [|apply IH; assumption].
  subst g. rewrite foldl_record_other by assumption.
  unfold record_future. apply lookup_insert_eq.
Qed.

Lemma foldl_record_size (l : list future) (m : gmap string status) :
  NoDup (map future_key l) ->
  (forall f, f ∈ l -> m !! future_key f = None) ->
  size (foldl record_future m l) = (size m + length l)%nat.
Proof.
  revert m. induction l as [|g l IH]; intros m Hnd Hnew; simpl; [lia|].
  simpl in Hnd. apply NoDup_cons in Hnd as [Hg Hnd].
  rewrite IH; [|assumption|].
  - unfold record_future. rewrite map_size_insert_None by (apply Hnew; left). lia.
  - intros f Hf. unfold record_future. rewrite lookup_insert_ne.
    + apply Hnew. right. exact Hf.
    + intros Heq. apply Hg. rewrite Heq. apply list_elem_of_fmap. eauto.
Qed.

Lemma worker_future_key (env : main_env) (a : args) (t : Path) :
  future_key (worker_future env a t) = path_stem t.
Proof.
  unfold worker_future, future_key, worker_start. simpl.
  rewrite run_single_test_unfold by (intros proc _; apply not_elem_of_nil).
  unfold run_single_test_paths.
  destruct (supervise_paths _ _ _ _ _) as [[exit_code|e] w1]; simpl.
  - destruct (env_write_status _); reflexivity.
  - destruct (is_Exception e); [|reflexivity].
    destruct (env_write_failed _); reflexivity.
Qed.

Lemma completed_keys (env : main_env) (a : args) (tests : list Path) :
  (forall fs, as_completed env fs ≡ₚ fs) ->
  map future_key (as_completed env (map (worker_future env a) tests))
  ≡ₚ map path_stem tests.
Proof.
  intros Hperm. rewrite (Hperm _).
  rewrite <- list_fmap_compose.
  erewrite list_fmap_ext; [reflexivity|].
  intros i t _. apply worker_future_key.
Qed.

(** The loop over [results.items()] computes the three selections. *)
Lemma categorize_names (items : list (string * status)) :
  categorize items
  = (names_with PASSED items, names_with FAILED items, names_with TIMEOUT items).
Proof.
  unfold categorize.
  assert (Hgen : forall passed failed timeouts,
    foldl (fun (acc : list string * list string * list string) item =>
             let '(passed, failed, timeouts) := acc in
             match snd item with
             | PASSED => (passed ++ [fst item], failed, timeouts)
             | TIMEOUT => (passed, failed, timeouts ++ [fst item])
             | FAILED => (passed, failed ++ [fst item], timeouts)
             end) (passed, failed, timeouts) items
    = (passed ++ names_with PASSED items, failed ++ names_with FAILED items,
       timeouts ++ names_with TIMEOUT items)).
  { induction items as [|[name st] items IH]; intros passed failed timeouts.
    - simpl. unfold names_with. simpl. rewrite !app_nil_r. reflexivity.
    - simpl. destruct st; rewrite IH; unfold names_with; simpl;
        rewrite <- ?app_assoc; reflexivity. }
  apply Hgen.
Qed.

Lemma names_with_length (items : list (string * status)) :
  (length (names_with PASSED items) + length (names_with FAILED items)
   + length (names_with TIMEOUT items) = length items)%nat.
Proof.
  unfold names_with.
  induction items as [|[name st] items IH]; simpl; [reflexivity|].
  destruct st; simpl; lia.
Qed.


Lemma run_pool_completes (env : main_env) (a : args) (tests : list Path)
    (reg : list Popen) (tr : list event) :
  0 < parallel a ->
  interrupt_at env = None ->
  (forall fs, as_completed env fs ≡ₚ fs) ->
  (forall t, t ∈ tests -> future_ok (worker_future env a t) = true) ->
  run_pool env a tests (mkWorld reg tr)
  = (Ok (foldl record_future ∅ (completed_futures env a tests)),
     mkWorld reg
       (tr ++ map EvSubmit tests
           ++ flat_map future_events (completed_futures env a tests)
           ++ [EvPrint "Waiting for all tests to complete..."; EvSleep 1])).
Proof.
  intros Hpar Hquiet Hperm Hok.
  pose proof (completed_ok env a tests Hperm Hok) as Hall.
  unfold run_pool, completed_futures. unfold mbind at 1, M_bind at 1, bind at 1.
  rewrite make_executor_ok by assumption.
  unfold mbind at 1, M_bind at 1, bind at 1.
  rewrite submit_all_unfold.
  unfold mbind at 1, M_bind at 1, bind at 1.
  rewrite pool_loop_undisturbed;
    [|intros j Hj; rewrite Hquiet in Hj; discriminate|assumption].
  unfold mbind, M_bind, bind, print, sleep, emit.
  cbn [fst snd trace active_processes].
  rewrite checkpoint_skip by (rewrite Hquiet; discriminate).
  unfold mret, M_ret, ret. cbn [trace active_processes].
  rewrite <- !app_assoc. reflexivity.
Qed.


(** ** C4 *)

(** C4, as amended: in a run that no signal interrupts, over tests whose
    names (the stems of their files) are pairwise distinct, the pool ends
    with one entry per submitted test, an exception of a test having become
    a FAILED entry, and the three lists built from the entries have
    [len(passed) + len(failed) + len(timeouts) == len(tests)]. *)
Theorem every_test_counted (env : main_env) (a : args) (tests : list Path)
    (reg : list Popen) (tr : list event)
    (Hpar : 0 < parallel a)
    (Hnames : NoDup (map path_stem tests))
    (Hperm : forall fs, as_completed env fs ≡ₚ fs)
    (Hquiet : interrupt_at env = None)
    (Hok : forall t, t ∈ tests -> future_ok (worker_future env a t) = true) :
  exists results tr',
    run_pool env a tests (mkWorld reg tr) = (Ok results, mkWorld reg tr')
    /\ (forall t, t ∈ tests ->
          results !! path_stem t = Some (future_status (worker_future env a t)))
    /\ (forall t e, t ∈ tests -> snd (worker_future env a t) = Raised e ->
          results !! path_stem t = Some FAILED)
    /\ size results = length tests
    /\ (let '(passed, failed, timeouts) := categorize (map_to_list results) in
        (length passed + length failed + length timeouts = length tests)%nat).
Proof.
  rewrite run_pool_completes by assumption.
  eexists _, _. split; [reflexivity|].
  pose proof (completed_keys env a tests Hperm) as Hkeys.
  fold (completed_futures env a tests) in Hkeys.
  assert (Hnd : NoDup (map future_key (completed_futures env a tests)))
    by (rewrite Hkeys; exact Hnames).
  assert (Hin : forall t, t ∈ tests ->
                  worker_future env a t ∈ completed_futures env a tests).
  { intros t Ht. unfold completed_futures. rewrite (Hperm _).
    apply list_elem_of_fmap. eauto. }
  assert (Hlookup : forall t, t ∈ tests ->
            foldl record_future ∅ (completed_futures env a tests) !! path_stem t
            = Some (future_status (worker_future env a t))).
  { intros t Ht. rewrite <- (worker_future_key env a t).
    apply foldl_record_nodup_key; [exact Hnd|apply Hin, Ht]. }
  assert (Hsize : size (foldl record_future ∅ (completed_futures env a tests))
                  = length tests).
  { rewrite foldl_record_size; [|exact Hnd|intros f _; apply lookup_empty].
    rewrite map_size_empty. simpl.
    rewrite <- (length_map future_key), Hkeys. apply length_map. }
  split; [exact Hlookup|]. split.
  { intros t e Ht He. rewrite Hlookup by assumption.
    unfold future_status. rewrite He. reflexivity. }
  split; [exact Hsize|].
  rewrite categorize_names, names_with_length, length_map_to_list. exact Hsize.
Qed.

Lemma every_test_counted_witness :
  exists results tr',
    run_pool (Sample.driver ["a.o"; "b.o"]) (Sample.cmdline "*.o" EmptyString)
      [Sample.asm_test "a.o"; Sample.asm_test "b.o"] (mkWorld [] [])
    = (Ok results, mkWorld [] tr')
    /\ size results = 2%nat.
Proof.
  destruct (every_test_counted (Sample.driver ["a.o"; "b.o"])
              (Sample.cmdline "*.o" EmptyString)
              [Sample.asm_test "a.o"; Sample.asm_test "b.o"] [] [])
    as (results & tr' & Hrun & _ & _ & Hsize & _).
  - reflexivity.
  - vm_compute. repeat constructor; intros H; inversion H; subst;
      try discriminate;
      match goal with H' : _ ∈ _ |- _ => inversion H' end.
  - intros fs. reflexivity.
  - reflexivity.
  - intros t _. vm_compute. reflexivity.
  - exists results, tr'. split; [exact Hrun|exact Hsize].
Defined.

(** C4 as stated fails: the glob pattern [t.*] picks up [t.S] and [t.o],
    two tests of one name; both are run, the second entry replaces the first,
    and the summary reports 2 tests in total but 1 passed, 0 failed and 0
    timed out. *)
Lemma same_name_counted_once :
  let r := main (Sample.driver ["t.S"; "t.o"]) (Sample.cmdline "t.*" EmptyString)
             Sample.start in
  List.filter is_submit (trace (snd r))
  = [EvSubmit (Sample.asm_test "t.S"); EvSubmit (Sample.asm_test "t.o")]
  /\ List.filter is_summary (trace (snd r)) = [EvSummary 2 1 0 0].
Proof. vm_compute. split; reflexivity. Qed.

(** ** C6 *)

Lemma flat_map_future_events_raised (completed : list future) (test_file : Path)
    (e : exn) :
  (test_file, Raised e) ∈ completed ->
  EvPrint ("[ERROR] Exception for " +:+ path_name test_file +:+ ": " +:+ exn_text e)
  ∈ flat_map future_events completed.
Proof.
  intros Hin. apply list_elem_of_In, in_flat_map.
  exists (test_file, Raised e). split; [apply list_elem_of_In, Hin|].
  simpl. left. reflexivity.
Qed.

(** C6: an exception of class [Exception] raised while a test is
    supervised (opening the log, spawning, waiting, signalling) is caught in
    [run_single_test]: the call prints the exception text, writes the FAILED
    result file and returns FAILED; and the loop of [main] turns every
    exception that a future raises into a printed line with its text and a
    FAILED entry for that test, and goes on to the futures that remain,
    ending normally with an entry for every future. *)
Theorem exception_becomes_failed_result :
  (forall (env : test_env) (test_file : Path) (config : string)
          (timeout_cycles : Z) (debug : bool) (log_dir result_dir : string)
          (wall_timeout : Z) (reg : list Popen) (tr : list event) (e : exn),
      let test_name := path_stem test_file in
      (forall proc, env_popen env = Ok proc -> proc ∉ reg) ->
      fst (supervise env (build_command test_file config timeout_cycles debug)
             (path_join log_dir (test_name +:+ ".log")) wall_timeout
             (mkWorld reg (tr ++ [EvPrint ("Starting: " +:+ test_name)])))
      = Raised e ->
      is_Exception e = true ->
      env_write_failed env = None ->
      let r := run_single_test env test_file config timeout_cycles debug log_dir
                 result_dir wall_timeout (mkWorld reg tr) in
      fst r = Ok (test_name, FAILED)
      /\ EvPrint ("ERROR: " +:+ test_name +:+ " - " +:+ exn_text e) ∈ trace (snd r)
      /\ EvWriteText (path_join result_dir (test_name +:+ ".result"))
           ("FAILED:" +:+ test_name) ∈ trace (snd r))
  /\ (forall (env : main_env) (k : nat) (completed : list future)
             (results : gmap string status) (reg : list Popen) (tr : list event),
         undisturbed env k (length completed) ->
         forallb future_ok completed = true ->
         exists results' tr',
           pool_loop env k completed results (mkWorld reg tr)
           = (Ok results', mkWorld reg tr')
           /\ (forall f, f ∈ completed -> is_Some (results' !! future_key f))
           /\ (forall test_file e,
                  (test_file, Raised e) ∈ completed ->
                  EvPrint ("[ERROR] Exception for " +:+ path_name test_file +:+ ": "
                           +:+ exn_text e) ∈ tr'
                  /\ (NoDup (map future_key completed) ->
                      results' !! path_stem test_file = Some FAILED))).
Proof.
  split.
  - intros env test_file config timeout_cycles debug log_dir result_dir
      wall_timeout reg tr e test_name Hfresh Hraise Hexc Hwrite. cbv zeta.
    rewrite supervise_unfold in Hraise by assumption.
    rewrite run_single_test_unfold by assumption.
    unfold run_single_test_paths. fold test_name.
    destruct (supervise_paths _ _ _ _ _) as [[exit_code|e'] w1]; simpl in Hraise;
      [discriminate|].
    injection Hraise as ->. rewrite Hexc, Hwrite. simpl.
    split; [reflexivity|]. split.
    + apply elem_of_app. left. apply elem_of_app. right.
      apply list_elem_of_singleton. reflexivity.
    + apply elem_of_app. right. apply list_elem_of_singleton. reflexivity.
  - intros env k completed results reg tr Hquiet Hok.
    rewrite pool_loop_undisturbed by assumption.
    eexists _, _. split; [reflexivity|]. split.
    + intros f Hf. apply foldl_record_some, Hf.
    + intros test_file e Hin. split.
      * apply elem_of_app. right. apply flat_map_future_events_raised, Hin.
      * intros Hnd.
        apply (foldl_record_nodup_key completed results (test_file, Raised e) Hnd Hin).
Qed.

Lemma exception_becomes_failed_result_witness :
  let r := run_single_test Sample.spawn_failure_test (Sample.asm_test "t1.o")
             "RV32RocketConfig" 1000 false "logs" "/tmp/r" 3600 Sample.start in
  fst r = Ok ("t1", FAILED)
  /\ EvPrint "ERROR: t1 - No such file: make" ∈ trace (snd r)
  /\ EvWriteText "/tmp/r/t1.result" "FAILED:t1" ∈ trace (snd r).
Proof.
  apply (proj1 exception_becomes_failed_result Sample.spawn_failure_test
           (Sample.asm_test "t1.o") "RV32RocketConfig" 1000 false "logs" "/tmp/r"
           3600 [] [] (Exception "No such file: make")).
  - intros proc Hproc. discriminate Hproc.
  - vm_compute. reflexivity.
  - reflexivity.
  - reflexivity.
Defined.

(** ** C9 *)



(* --------------------------------------------------------------------- *)
(** ** The order of paths and [sorted] *)
(* --------------------------------------------------------------------- *)


Lemma string_compare_refl (s : string) : String.compare s s = Eq.
Proof.
  induction s as [|a s IH]; simpl; [reflexivity|].
  unfold Ascii.compare. rewrite N.compare_refl. exact IH.
Qed.









Lemma insert_sorted_perm (x : Path) (l : list Path) : insert_sorted x l ≡ₚ x :: l.
Proof.
  induction l as [|y l IH]; simpl; [reflexivity|].
  destruct (path_ltb y x); [|reflexivity].
  rewrite IH. apply perm_swap.
Qed.

Lemma sorted_perm (l : list Path) : sorted l ≡ₚ l.
Proof.
  induction l as [|x l IH]; simpl; [reflexivity|].
  rewrite insert_sorted_perm, IH. reflexivity.
Qed.




(* --------------------------------------------------------------------- *)
(** ** Test collection *)
(* --------------------------------------------------------------------- *)

Lemma collect_loop_no_exclude (fs : fs_env) (exclude_pattern : string)
    (candidates tests : list Path) (w : world) :
  nonempty exclude_pattern = false ->
  collect_loop fs exclude_pattern candidates tests w
  = (Ok (tests ++ List.filter (kept fs None) candidates), w).
Proof.
  intros Hempty. revert tests.
  induction candidates as [|c candidates IH]; intros tests; simpl.
  - rewrite app_nil_r. reflexivity.
  - unfold kept at 1. destruct (fs_is_file fs c); simpl; [|apply IH].
    rewrite Hempty. unfold mbind, M_bind, bind, mret, M_ret, ret.
    rewrite IH. rewrite <- app_assoc. reflexivity.
Qed.

Lemma collect_loop_valid (fs : fs_env) (exclude_pattern : string)
    (found : string -> bool) (candidates tests : list Path) (w : world) :
  nonempty exclude_pattern = true ->
  fs_re fs exclude_pattern = Ok found ->
  collect_loop fs exclude_pattern candidates tests w
  = (Ok (tests ++ List.filter (kept fs (Some found)) candidates), w).
Proof.
  intros Hnonempty Hre. revert tests.
  induction candidates as [|c candidates IH]; intros tests; simpl.
  - rewrite app_nil_r. reflexivity.
  - unfold kept at 1. destruct (fs_is_file fs c); simpl; [|apply IH].
    rewrite Hnonempty, Hre.
    unfold mbind, M_bind, bind, try_except, lift_result, mret, M_ret, ret.
    destruct (found (path_name c)); simpl; [apply IH|].
    rewrite IH. rewrite <- app_assoc. reflexivity.
Qed.






(** ** C8 *)



(* --------------------------------------------------------------------- *)
(** ** The matcher decides the declarative meaning *)
(* --------------------------------------------------------------------- *)

Section RegexFacts.

Variable ic : bool.

Lemma nullable_sound (r : Re.regex) : Re.nullable r = true -> Re.matches ic r [].
Proof.
  induction r as [| | a | | r1 IH1 r2 IH2 | r1 IH1 r2 IH2 | r IH]; simpl; intros H;
    try discriminate.
  - constructor.
  - apply andb_true_iff in H as [H1 H2].
    change (@nil ascii) with (@nil ascii ++ []). constructor; auto.
  - apply orb_true_iff in H as [H|H]; [apply Re.m_alt_l|apply Re.m_alt_r]; auto.
  - constructor.
Qed.

Lemma nullable_complete (r : Re.regex) (w : list ascii) :
  Re.matches ic r w -> w = [] -> Re.nullable r = true.
Proof.
  induction 1 as [| | | r s u v _ IH1 _ IH2 | r s u _ IH | r s u _ IH | |];
    intros Hw; simpl; try discriminate; try reflexivity.
  - apply app_eq_nil in Hw as [-> ->]. rewrite IH1, IH2 by reflexivity. reflexivity.
  - rewrite IH by assumption. reflexivity.
  - rewrite IH by assumption. apply orb_true_r.
Qed.

Lemma matches_cat_inv (r s : Re.regex) (w : list ascii) :
  Re.matches ic (Re.Cat r s) w ->
  exists u v, w = u ++ v /\ Re.matches ic r u /\ Re.matches ic s v.
Proof. intros H. inversion H; subst. eauto. Qed.

Lemma matches_lit_inv (a : ascii) (w : list ascii) :
  Re.matches ic (Re.Lit a) w -> exists c, w = [c] /\ Re.chr_eqb ic a c = true.
Proof. intros H. inversion H; subst. eauto. Qed.

Lemma matches_dot_inv (w : list ascii) :
  Re.matches ic Re.Dot w -> exists c, w = [c] /\ c <> Re.newline.
Proof. intros H. inversion H; subst. eauto. Qed.

Lemma matches_star_cons_inv (r : Re.regex) (c : ascii) (w : list ascii) :
  Re.matches ic (Re.Star r) (c :: w) ->
  exists u v, w = u ++ v /\ Re.matches ic r (c :: u) /\ Re.matches ic (Re.Star r) v.
Proof.
  intros H. remember (Re.Star r) as sr eqn:Hsr. remember (c :: w) as cw eqn:Hcw.
  revert w Hcw.
  induction H as [| | | | | | |r' u v Hu _ Hv IHv]; intros w Hcw; try discriminate.
  injection Hsr as ->. destruct u as [|c' u]; simpl in Hcw.
  - apply IHv; [reflexivity|exact Hcw].
  - injection Hcw as -> <-. exists u, v. auto.
Qed.

Lemma deriv_sound (r : Re.regex) (c : ascii) (w : list ascii) :
  Re.matches ic (Re.deriv ic c r) w -> Re.matches ic r (c :: w).
Proof.
  revert w.
  induction r as [| | a | | r1 IH1 r2 IH2 | r1 IH1 r2 IH2 | r IH]; simpl; intros w H.
  - inversion H.
  - inversion H.
  - destruct (Re.chr_eqb ic a c) eqn:E; inversion H; subst. constructor. exact E.
  - destruct (Ascii.eqb c Re.newline) eqn:E; inversion H; subst.
    constructor. apply Ascii.eqb_neq, E.
  - destruct (Re.nullable r1) eqn:N.
    + inversion H as [| | | | ? ? ? Hl | ? ? ? Hr | |]; subst.
      * inversion Hl; subst.
        change (c :: ?u ++ ?v) with ((c :: u) ++ v). constructor; auto.
      * change (c :: w) with ([] ++ c :: w).
        constructor; [apply nullable_sound, N|apply IH2, Hr].
    + inversion H; subst.
      change (c :: ?u ++ ?v) with ((c :: u) ++ v). constructor; auto.
  - inversion H; subst; [apply Re.m_alt_l|apply Re.m_alt_r]; auto.
  - inversion H; subst.
    change (c :: ?u ++ ?v) with ((c :: u) ++ v). apply Re.m_star_cons; auto.
Qed.

Lemma deriv_complete (r : Re.regex) (c : ascii) (w : list ascii) :
  Re.matches ic r (c :: w) -> Re.matches ic (Re.deriv ic c r) w.
Proof.
  revert w.
  induction r as [| | a | | r1 IH1 r2 IH2 | r1 IH1 r2 IH2 | r IH]; simpl; intros w H.
  - inversion H.
  - inversion H.
  - apply matches_lit_inv in H as (c' & Hw & E). injection Hw as <- ->.
    rewrite E. constructor.
  - apply matches_dot_inv in H as (c' & Hw & E). injection Hw as <- ->.
    destruct (Ascii.eqb c Re.newline) eqn:E'; [|constructor].
    apply Ascii.eqb_eq in E'. contradiction.
  - apply matches_cat_inv in H as (u & v & Huv & Hu & Hv).
    destruct u as [|c' u]; simpl in Huv.
    + subst v. rewrite (nullable_complete r1 [] Hu eq_refl).
      apply Re.m_alt_r, IH2, Hv.
    + injection Huv as <- ->.
      destruct (Re.nullable r1); [apply Re.m_alt_l|]; constructor; auto.
  - inversion H; subst; [apply Re.m_alt_l|apply Re.m_alt_r]; auto.
  - apply matches_star_cons_inv in H as (u & v & -> & Hu & Hv).
    constructor; auto.
Qed.

Lemma match_prefix_nullable (r : Re.regex) (w : list ascii) :
  Re.nullable r = true -> Re.match_prefix ic r w = true.
Proof. intros H. destruct w; simpl; rewrite H; reflexivity. Qed.

Lemma match_prefix_spec (r : Re.regex) (w : list ascii) :
  Re.match_prefix ic r w = true <-> exists u v, w = u ++ v /\ Re.matches ic r u.
Proof.
  split.
  - revert r. induction w as [|c w IH]; intros r H; simpl in H.
    + rewrite orb_false_r in H. exists [], []. split; [reflexivity|].
      apply nullable_sound, H.
    + apply orb_true_iff in H as [H|H].
      * exists [], (c :: w). split; [reflexivity|]. apply nullable_sound, H.
      * apply IH in H as (u & v & -> & Hu).
        exists (c :: u), v. split; [reflexivity|]. apply deriv_sound, Hu.
  - intros (u & v & -> & Hu). revert r Hu.
    induction u as [|c u IH]; intros r Hu.
    + apply match_prefix_nullable. apply (nullable_complete r [] Hu eq_refl).
    + simpl. rewrite (IH _ (deriv_complete r c u Hu)). apply orb_true_r.
Qed.

Lemma search_prefix (r : Re.regex) (w : list ascii) :
  Re.match_prefix ic r w = true -> Re.search ic r w = true.
Proof. intros H. destruct w; cbn [Re.search]; rewrite H; reflexivity. Qed.

Lemma search_spec (r : Re.regex) (w : list ascii) :
  Re.search ic r w = true
  <-> exists before u after, w = before ++ u ++ after /\ Re.matches ic r u.
Proof.
  split.
  - induction w as [|c w IH]; intros H; cbn [Re.search] in H.
    + rewrite orb_false_r in H. apply match_prefix_spec in H as (u & v & Hw & Hu).
      exists [], u, v. auto.
    + apply orb_true_iff in H as [H|H].
      * apply match_prefix_spec in H as (u & v & Hw & Hu). exists [], u, v. auto.
      * apply IH in H as (before & u & after & -> & Hu).
        exists (c :: before), u, after. auto.
  - intros (before & u & after & -> & Hu).
    induction before as [|c before IH].
    + apply search_prefix, match_prefix_spec.
      exists u, after. split; [reflexivity|exact Hu].
    + change ((c :: before) ++ u ++ after) with (c :: (before ++ u ++ after)).
      cbn [Re.search]. rewrite IH. apply orb_true_r.
Qed.

Lemma chr_eqb_fold (a c : ascii) :
  Re.chr_eqb ic a c = true <-> Re.fold_char ic c = Re.fold_char ic a.
Proof.
  unfold Re.chr_eqb, Re.fold_char. destruct ic; rewrite Ascii.eqb_eq; split; congruence.
Qed.

Lemma matches_lits (w : list ascii) (k : Re.regex) (u : list ascii) :
  Re.matches ic (Re.lits w k) u
  <-> exists w' v, u = w' ++ v /\ Re.fold_case ic w' = Re.fold_case ic w
                   /\ Re.matches ic k v.
Proof.
  revert u. induction w as [|c w IH]; intros u; simpl.
  - split.
    + intros H. exists [], u. auto.
    + intros (w' & v & -> & Hw' & Hv).
      destruct w'; [exact Hv|discriminate].
  - split.
    + intros H. apply matches_cat_inv in H as (u1 & u2 & -> & H1 & H2).
      apply matches_lit_inv in H1 as (c' & -> & E).
      apply IH in H2 as (w' & v & -> & Hw' & Hv).
      exists (c' :: w'), v. split; [reflexivity|]. split; [|exact Hv].
      unfold Re.fold_case in *. simpl. rewrite Hw'.
      f_equal. apply chr_eqb_fold, E.
    + intros (w' & v & -> & Hw' & Hv).
      destruct w' as [|c' w']; [discriminate|].
      unfold Re.fold_case in Hw'. simpl in Hw'. injection Hw' as Hc Hw'.
      change ((c' :: w') ++ v) with ([c'] ++ (w' ++ v)).
      constructor.
      * constructor. apply chr_eqb_fold, Hc.
      * apply IH. exists w', v. auto.
Qed.

Lemma matches_star_dot (gap : list ascii) :
  Re.matches ic (Re.Star Re.Dot) gap <-> Re.newline ∉ gap.
Proof.
  split.
  - intros H. remember (Re.Star Re.Dot) as sd eqn:Hsd.
    induction H as [| | | | | | |r u v Hu _ Hv IHv]; try discriminate.
    + apply not_elem_of_nil.
    + injection Hsd as ->. apply matches_dot_inv in Hu as (c & -> & Hc). simpl.
      apply not_elem_of_cons. split; [congruence|]. apply IHv. reflexivity.
  - induction gap as [|c gap IH]; intros H; [constructor|].
    apply not_elem_of_cons in H as [Hc Hgap].
    change (c :: gap) with ([c] ++ gap). apply Re.m_star_cons.
    + constructor. congruence.
    + apply IH, Hgap.
Qed.

Lemma matches_gap (k : Re.regex) (u : list ascii) :
  Re.matches ic (Re.Cat (Re.Star Re.Dot) k) u
  <-> exists gap rest,
        u = gap ++ rest /\ (Re.newline ∉ gap) /\ Re.matches ic k rest.
Proof.
  split.
  - intros H. apply matches_cat_inv in H as (gap & rest & -> & Hgap & Hrest).
    exists gap, rest. split; [reflexivity|].
    split; [apply matches_star_dot|]; assumption.
  - intros (gap & rest & -> & Hgap & Hrest).
    constructor; [apply matches_star_dot|]; assumption.
Qed.

Lemma matches_chain (ws : list string) (u : list ascii) :
  ws <> [] -> Re.matches ic (Re.chain ws) u <-> Re.spells ic ws u.
Proof.
  revert u. induction ws as [|w ws IH]; intros u Hne; [congruence|].
  destruct ws as [|w2 ws].
  - simpl. rewrite matches_lits. split.
    + intros (w' & v & -> & Hw' & Hv). inversion Hv; subst.
      rewrite app_nil_r. constructor. exact Hw'.
    + intros H. inversion H as [? ? Hu|? ? ? ? ? ? ? Hs]; subst; [|inversion Hs].
      exists u, []. rewrite app_nil_r. split; [reflexivity|].
      split; [exact Hu|constructor].
  - change (Re.chain (w :: w2 :: ws))
      with (Re.lits (list_ascii_of_string w)
              (Re.Cat (Re.Star Re.Dot) (Re.chain (w2 :: ws)))).
    rewrite matches_lits. split.
    + intros (w' & v & -> & Hw' & Hv).
      apply matches_gap in Hv as (gap & rest & -> & Hgap & Hrest).
      apply IH in Hrest; [|discriminate].
      constructor; assumption.
    + intros H. inversion H as [|? ? u' gap rest Hu Hgap Hs]; subst.
      exists u', (gap ++ rest). split; [reflexivity|]. split; [exact Hu|].
      apply matches_gap. exists gap, rest. split; [reflexivity|].
      split; [exact Hgap|]. apply IH; [discriminate|exact Hs].
Qed.

Lemma search_chain (ws : list string) (line : string) :
  ws <> [] ->
  Re.search ic (Re.chain ws) (list_ascii_of_string line) = true
  <-> Re.occurs ic ws line.
Proof.
  intros Hne. rewrite search_spec. unfold Re.occurs.
  split; intros (before & u & after & Hline & Hu); exists before, u, after;
    (split; [exact Hline|]); apply (matches_chain ws u Hne), Hu.
Qed.

End RegexFacts.

(* --------------------------------------------------------------------- *)
(** ** What the three patterns of the classifier find *)
(* --------------------------------------------------------------------- *)

Lemma compile_max_cycles :
  re_compile pat_max_cycles
  = Some (false, Re.chain ["Fatal:"; "TestDriver"; "at time"; "ps"]).
Proof. vm_compute. reflexivity. Qed.

Lemma compile_fatal_at_time :
  re_compile pat_fatal_at_time
  = Some (false, Re.chain ["Fatal:"; "TestDriver"; "at time"]).
Proof. vm_compute. reflexivity. Qed.

Lemma compile_error :
  re_compile pat_error
  = Some (true, Re.Alt (Re.chain ["Error:"]) (Re.chain ["Assertion failed"])).
Proof. vm_compute. reflexivity. Qed.

Lemma existsb_has_line (f : string -> bool) (P : string -> Prop)
    (log : log_file_contents) :
  (forall line, f line = true <-> P line) ->
  match log with
  | None => false
  | Some lines => existsb f lines
  end = true <-> has_line P log.
Proof.
  intros Hf. unfold has_line. destruct log as [lines|].
  - rewrite existsb_exists. split.
    + intros (line & Hin & Hline). exists lines, line.
      split; [reflexivity|]. split; [apply list_elem_of_In, Hin|apply Hf, Hline].
    + intros (lines' & line & Heq & Hin & Hline). injection Heq as <-.
      exists line. split; [apply list_elem_of_In, Hin|apply Hf, Hline].
  - split; [discriminate|]. intros (lines & line & Heq & _). discriminate.
Qed.

Lemma check_max_cycles (log : log_file_contents) :
  check_log_for_pattern log pat_max_cycles = true <-> has_line max_cycle_marker log.
Proof.
  unfold check_log_for_pattern. rewrite compile_max_cycles.
  replace (match log with
           | Some lines => existsb _ lines
           | None => false
           end)
    with (match log with
          | None => false
          | Some lines =>
              existsb (fun line =>
                         Re.search false
                           (Re.chain ["Fatal:"; "TestDriver"; "at time"; "ps"])
                           (list_ascii_of_string line)) lines
          end) by (destruct log; reflexivity).
  apply existsb_has_line. intros line. apply search_chain. discriminate.
Qed.

Lemma check_fatal_at_time (log : log_file_contents) :
  check_log_for_pattern log pat_fatal_at_time = true
  <-> has_line fatal_at_time_marker log.
Proof.
  unfold check_log_for_pattern. rewrite compile_fatal_at_time.
  replace (match log with
           | Some lines => existsb _ lines
           | None => false
           end)
    with (match log with
          | None => false
          | Some lines =>
              existsb (fun line =>
                         Re.search false
                           (Re.chain ["Fatal:"; "TestDriver"; "at time"])
                           (list_ascii_of_string line)) lines
          end) by (destruct log; reflexivity).
  apply existsb_has_line. intros line. apply search_chain. discriminate.
Qed.

Lemma search_alt (ic : bool) (r s : Re.regex) (w : list ascii) :
  Re.search ic (Re.Alt r s) w = true
  <-> Re.search ic r w = true \/ Re.search ic s w = true.
Proof.
  rewrite !search_spec. split.
  - intros (before & u & after & Hw & Hu).
    inversion Hu; subst; [left|right]; eauto 6.
  - intros [(before & u & after & Hw & Hu)|(before & u & after & Hw & Hu)];
      exists before, u, after; (split; [exact Hw|]);
      [apply Re.m_alt_l|apply Re.m_alt_r]; exact Hu.
Qed.

Lemma check_error (log : log_file_contents) :
  check_log_for_pattern log pat_error = true <-> has_line error_marker log.
Proof.
  unfold check_log_for_pattern. rewrite compile_error.
  replace (match log with
           | Some lines => existsb _ lines
           | None => false
           end)
    with (match log with
          | None => false
          | Some lines =>
              existsb (fun line =>
                         Re.search true
                           (Re.Alt (Re.chain ["Error:"])
                              (Re.chain ["Assertion failed"]))
                           (list_ascii_of_string line)) lines
          end) by (destruct log; reflexivity).
  apply existsb_has_line. intros line. unfold error_marker.
  rewrite search_alt, !search_chain by discriminate. reflexivity.
Qed.

(** ** C1 *)

(** C1, as amended: the classifier takes the first of five cases that
    applies.  Exit code 124 (which is what the supervisor reports when the
    wall clock expires) gives TIMEOUT; else a log with a line that holds
    "Fatal:", "TestDriver", "at time" and "ps" in this order gives TIMEOUT;
    else a log with a line that holds "Error:" or "Assertion failed" in any
    letter case, and with no line that holds "Fatal:", "TestDriver" and
    "at time" in this order (the marker of the second case without its
    "ps"), gives FAILED; else a non-zero exit code gives FAILED; else
    PASSED. *)
Theorem classification_first_match (exit_code : Z) (log : log_file_contents) :
  let st := fst (determine_result exit_code log) in
  (exit_code = 124 -> st = TIMEOUT)
  /\ (exit_code <> 124 -> has_line max_cycle_marker log -> st = TIMEOUT)
  /\ (exit_code <> 124 -> ~ has_line max_cycle_marker log ->
      has_line error_marker log -> ~ has_line fatal_at_time_marker log ->
      st = FAILED)
  /\ (exit_code <> 124 -> ~ has_line max_cycle_marker log ->
      ~ (has_line error_marker log /\ ~ has_line fatal_at_time_marker log) ->
      exit_code <> 0 -> st = FAILED)
  /\ (exit_code = 0 -> ~ has_line max_cycle_marker log ->
      ~ (has_line error_marker log /\ ~ has_line fatal_at_time_marker log) ->
      st = PASSED).
Proof.
  cbv zeta. unfold determine_result, timed_out.
  rewrite <- (check_max_cycles log), <- (check_error log),
    <- (check_fatal_at_time log).
  destruct (decide (exit_code = 124)) as [H124|H124].
  { rewrite bool_decide_eq_true_2 by assumption. simpl.
    repeat split; intros; try reflexivity; try congruence; lia. }
  rewrite bool_decide_eq_false_2 by assumption.
  destruct (check_log_for_pattern log pat_max_cycles),
           (check_log_for_pattern log pat_error),
           (check_log_for_pattern log pat_fatal_at_time);
    destruct (decide (exit_code <> 0)) as [H0|H0]; simpl.
  all: repeat split; intros; try reflexivity; try congruence.
  all: exfalso; intuition congruence.
Qed.

Lemma classification_first_match_witness :
  fst (determine_result 0 (Some ["boot"; "Fatal: TestDriver.v: at time 100 ps"]))
  = TIMEOUT.
Proof.
  apply (proj1 (proj2 (classification_first_match 0
                         (Some ["boot"; "Fatal: TestDriver.v: at time 100 ps"])))).
  - discriminate.
  - apply check_max_cycles. vm_compute. reflexivity.
Defined.

(** C1 as stated fails: with an "Error:" line and a fatal line of the test
    driver that gives its time in ns, the log does not match the marker of the
    second case, so the five cases as stated give FAILED; the code, whose
    third case looks for the shorter marker, falls through to the exit code
    and gives PASSED. *)
Lemma error_beside_fatal_in_ns_is_passed :
  let log := Some ["Error: mismatch at pc 80000000";
                   "Fatal: TestDriver.v: at time 100 ns"] in
  classify_spec log 0 false = FAILED
  /\ fst (determine_result 0 log) = PASSED.
Proof. vm_compute. split; reflexivity. Qed.


Example scenario_of_three :
  main Sample.scenario (Sample.cmdline "*.o" EmptyString) Sample.start
  = (Raised (SystemExit 1),
     mkWorld []
       [EvPrint "RISC-V DV Parallel Test Runner";
        EvSubmit (Sample.asm_test "a.o"); EvSubmit (Sample.asm_test "b.o");
        EvSubmit (Sample.asm_test "c.o");
        EvPrint "Waiting for all tests to complete..."; EvSleep 1;
        EvSummary 3 1 1 1;
        EvRmtree "/tmp/test_results_x"]).
Proof. vm_compute. reflexivity. Qed.

(* ===================================================================== *)
(** * Further properties of the runner *)
(* ===================================================================== *)

(* --------------------------------------------------------------------- *)
(** ** Test names *)
(* --------------------------------------------------------------------- *)

Lemma append_cons (c : ascii) (s t : string) :
  String c s +:+ t = String c (s +:+ t).
Proof. reflexivity. Qed.

Lemma append_nil (t : string) : EmptyString +:+ t = t.
Proof. reflexivity. Qed.

Lemma length_append (s t : string) :
  String.length (s +:+ t) = (String.length s + String.length t)%nat.
Proof.
  induction s as [|c s IH]; [reflexivity|].
  rewrite append_cons. simpl. rewrite IH. reflexivity.
Qed.

Lemma substring_append (s t : string) :
  String.substring 0 (String.length s) (s +:+ t) = s.
Proof.
  induction s as [|c s IH].
  - rewrite append_nil. destruct t; reflexivity.
  - rewrite append_cons. simpl. rewrite IH. reflexivity.
Qed.

Lemma str_in_dot_cons (c : ascii) (ext : string) :
  Re.str_in "." (String c ext) = Ascii.eqb c "." || Re.str_in "." ext.
Proof.
  cbn [Re.str_in String.prefix].
  destruct (ascii_dec "." c) as [<-|Hne].
  - destruct ext; reflexivity.
  - replace (Ascii.eqb c ".") with false; [reflexivity|].
    symmetry. apply Ascii.eqb_neq. congruence.
Qed.

(** No dot in a text. *)
Lemma rfind_dot_none (ext : string) (i : nat) :
  Re.str_in "." ext = false -> rfind_dot ext i = None.
Proof.
  revert i. induction ext as [|c ext IH]; intros i H; [reflexivity|].
  rewrite str_in_dot_cons in H. apply orb_false_iff in H as [Hc Hext].
  simpl. rewrite IH by assumption. rewrite Hc. reflexivity.
Qed.

Lemma rfind_dot_suffix (s ext : string) (i : nat) :
  Re.str_in "." ext = false ->
  rfind_dot (s +:+ String "." ext) i = Some (i + String.length s)%nat.
Proof.
  intros Hext. revert i. induction s as [|c s IH]; intros i.
  - rewrite append_nil. simpl. rewrite rfind_dot_none by assumption.
    f_equal. lia.
  - rewrite append_cons. simpl. rewrite IH. f_equal. lia.
Qed.

(** The stem of [name.ext] is [name], for a non-empty name and a non-empty
    extension without a dot. *)
Lemma stem_of_name_ext (s ext : string) :
  s <> EmptyString -> ext <> EmptyString -> Re.str_in "." ext = false ->
  stem_of_name (s +:+ String "." ext) = s.
Proof.
  intros Hs Hext Hdot. unfold stem_of_name.
  rewrite rfind_dot_suffix by assumption. simpl.
  assert (Hlen : (0 < String.length s)%nat) by (destruct s; [congruence|simpl; lia]).
  assert (Hlen' : (0 < String.length ext)%nat)
    by (destruct ext; [congruence|simpl; lia]).
  rewrite length_append. simpl.
  replace (0 <? String.length s)%nat with true by (symmetry; apply Nat.ltb_lt; lia).
  replace (String.length s <? String.length s + S (String.length ext) - 1)%nat
    with true by (symmetry; apply Nat.ltb_lt; lia).
  simpl. apply substring_append.
Qed.

Lemma path_name_snoc (dir : Path) (name : string) : path_name (dir ++ [name]) = name.
Proof. unfold path_name. apply last_last. Qed.

(** Object files [name.o] of one directory, with pairwise distinct
    non-empty names, are tests of pairwise distinct names: the file called
    just [.o] is the only one whose test name can clash. *)
Theorem object_files_have_distinct_test_names (dir : Path) (names : list string)
    (Hnonempty : forall s, s ∈ names -> s <> EmptyString)
    (Hdistinct : NoDup names) :
  map path_stem (map (fun s => dir ++ [s +:+ ".o"]) names) = names
  /\ NoDup (map path_stem (map (fun s => dir ++ [s +:+ ".o"]) names)).
Proof.
  assert (Heq : map path_stem (map (fun s => dir ++ [s +:+ ".o"]) names) = names).
  { induction names as [|s names IH]; [reflexivity|].
    simpl. unfold path_stem at 1. rewrite path_name_snoc.
    rewrite (stem_of_name_ext s "o");
      [|apply Hnonempty; left|discriminate|reflexivity].
    f_equal. apply IH.
    - intros s' Hs'. apply Hnonempty. right. exact Hs'.
    - apply NoDup_cons in Hdistinct as [_ H]. exact H. }
  split; [exact Heq|]. rewrite Heq. exact Hdistinct.
Qed.

Lemma object_files_have_distinct_test_names_witness :
  map path_stem
    (map (fun s => ["riscv-dv"; "out"; "asm_test"] ++ [s +:+ ".o"])
       ["riscv_arithmetic_basic_test_0"; "riscv_rand_instr_test_0"])
  = ["riscv_arithmetic_basic_test_0"; "riscv_rand_instr_test_0"]
  /\ NoDup (map path_stem
              (map (fun s => ["riscv-dv"; "out"; "asm_test"] ++ [s +:+ ".o"])
                 ["riscv_arithmetic_basic_test_0"; "riscv_rand_instr_test_0"])).
Proof.
  apply (object_files_have_distinct_test_names ["riscv-dv"; "out"; "asm_test"]
           ["riscv_arithmetic_basic_test_0"; "riscv_rand_instr_test_0"]).
  - intros s Hs.
    repeat (apply elem_of_cons in Hs as [->|Hs]; [discriminate|]).
    inversion Hs.
  - repeat constructor; intros H; inversion H; subst;
      try discriminate;
      match goal with H' : _ ∈ _ |- _ => inversion H' end.
Defined.

Example dot_o_clashes : stem_of_name ".o" = stem_of_name ".o.o".
Proof. reflexivity. Qed.

(* --------------------------------------------------------------------- *)
(** ** The log search *)
(* --------------------------------------------------------------------- *)











Lemma check_log_app (pattern : string) (lines1 lines2 : list string) :
  check_log_for_pattern (Some (lines1 ++ lines2)) pattern
  = check_log_for_pattern (Some lines1) pattern
    || check_log_for_pattern (Some lines2) pattern.
Proof.
  unfold check_log_for_pattern.
  destruct (re_compile pattern) as [[ic r]|]; [|reflexivity].
  apply existsb_app.
Qed.

(** What the three searches of the classifier find: the max-cycle search
    succeeds exactly when one line holds "Fatal:", "TestDriver", "at time"
    and "ps" in this order with no newline in between; the guard of the third
    case, the same without "ps"; the error search, "Error:" or "Assertion
    failed" in any letter case.  The search goes line by line: over two logs
    put end to end it finds what it finds in either, and nothing more. *)
Theorem log_searches_decide_markers (log : log_file_contents) :
  (check_log_for_pattern log pat_max_cycles = true
   <-> has_line max_cycle_marker log)
  /\ (check_log_for_pattern log pat_fatal_at_time = true
      <-> has_line fatal_at_time_marker log)
  /\ (check_log_for_pattern log pat_error = true <-> has_line error_marker log)
  /\ (forall pattern lines1 lines2,
         check_log_for_pattern (Some (lines1 ++ lines2)) pattern
         = check_log_for_pattern (Some lines1) pattern
           || check_log_for_pattern (Some lines2) pattern).
Proof.
  split; [apply check_max_cycles|].
  split; [apply check_fatal_at_time|].
  split; [apply check_error|].
  apply check_log_app.
Qed.

Example marker_across_lines_is_missed :
  check_log_for_pattern (Some ["Fatal: TestDriver"; "at time 100 ps"]) pat_max_cycles
  = false.
Proof. vm_compute. reflexivity. Qed.

(* --------------------------------------------------------------------- *)
(** ** One test: result file, signals, and what PASSED means *)
(* --------------------------------------------------------------------- *)

Lemma supervise_paths_no_write (env : test_env) (cmd : list string)
    (log_file : string) (reg : list Popen) (tr : list event) :
  List.filter is_write (trace (snd (supervise_paths env cmd log_file reg tr)))
  = List.filter is_write tr.
Proof.
  unfold supervise_paths.
  repeat (match goal with
          | |- context [match ?x with _ => _ end] => destruct x
          end; simpl);
    rewrite ?List.filter_app; simpl; rewrite ?app_nil_r; reflexivity.
Qed.

(** The result file agrees with what the call returns: when
    [run_single_test] returns a name and a status, the name is the stem of
    the test file and the call has written one file, [name.result] in the
    result directory, holding [STATUS:name] with that very status; when the
    call raises, it has written no result file. *)
Theorem result_file_matches_returned_status (env : test_env) (test_file : Path)
    (config : string) (timeout_cycles : Z) (debug : bool)
    (log_dir result_dir : string) (wall_timeout : Z) (reg : list Popen)
    (tr : list event)
    (Hfresh : forall proc, env_popen env = Ok proc -> proc ∉ reg) :
  let r := run_single_test env test_file config timeout_cycles debug log_dir
             result_dir wall_timeout (mkWorld reg tr) in
  match fst r with
  | Ok (name, st) =>
      name = path_stem test_file
      /\ List.filter is_write (trace (snd r))
         = List.filter is_write tr
           ++ [EvWriteText (path_join result_dir (name +:+ ".result"))
                 (status_str st +:+ ":" +:+ name)]
  | Raised _ => List.filter is_write (trace (snd r)) = List.filter is_write tr
  end.
Proof.
  cbv zeta. rewrite run_single_test_unfold by assumption.
  unfold run_single_test_paths.
  pose proof (supervise_paths_no_write env
    (build_command test_file config timeout_cycles debug)
    (path_join log_dir (path_stem test_file +:+ ".log")) reg
    (tr ++ [EvPrint ("Starting: " +:+ path_stem test_file)])) as Hsup.
  rewrite List.filter_app in Hsup. simpl in Hsup. rewrite app_nil_r in Hsup.
  destruct (supervise_paths _ _ _ _ _) as [[exit_code|e] [reg' tr']];
    simpl in Hsup; simpl.
  - destruct (env_write_status env); simpl; [exact Hsup|].
    split; [reflexivity|].
    rewrite List.filter_app, Hsup. reflexivity.
  - destruct (is_Exception e); simpl; [|exact Hsup].
    destruct (env_write_failed env); simpl.
    + rewrite List.filter_app, Hsup. simpl. apply app_nil_r.
    + split; [reflexivity|].
      rewrite !List.filter_app, Hsup. simpl. rewrite app_nil_r. reflexivity.
Qed.

Lemma result_file_matches_returned_status_witness :
  let r := run_single_test Sample.failing_test (Sample.asm_test "t1.o")
             "RV32RocketConfig" 1000 false "logs" "/tmp/r" 3600 Sample.start in
  match fst r with
  | Ok (name, st) =>
      name = "t1"
      /\ List.filter is_write (trace (snd r))
         = [] ++ [EvWriteText (path_join "/tmp/r" (name +:+ ".result"))
                    (status_str st +:+ ":" +:+ name)]
  | Raised _ => List.filter is_write (trace (snd r)) = []
  end.
Proof.
  apply (result_file_matches_returned_status Sample.failing_test
           (Sample.asm_test "t1.o") "RV32RocketConfig" 1000 false "logs" "/tmp/r"
           3600 [] []).
  intros proc _. apply not_elem_of_nil.
Defined.

(** No signal without a timeout: unless [proc.wait] raises
    [TimeoutExpired], [run_single_test] signals no process group and does
    not sleep, whatever else fails. *)
Theorem no_signal_without_timeout (env : test_env) (test_file : Path)
    (config : string) (timeout_cycles : Z) (debug : bool)
    (log_dir result_dir : string) (wall_timeout : Z) (reg : list Popen)
    (tr : list event)
    (Hfresh : forall proc, env_popen env = Ok proc -> proc ∉ reg)
    (Hwait : forall text, env_wait env <> Raised (TimeoutExpired text)) :
  List.filter is_escalation
    (trace (snd (run_single_test env test_file config timeout_cycles debug log_dir
                   result_dir wall_timeout (mkWorld reg tr))))
  = List.filter is_escalation tr.
Proof.
  rewrite run_single_test_unfold by assumption.
  unfold run_single_test_paths, supervise_paths.
  destruct (env_open env); simpl.
  { destruct (is_Exception e); simpl.
    - destruct (env_write_failed env); simpl;
        rewrite !List.filter_app; simpl; rewrite ?app_nil_r; reflexivity.
    - rewrite !List.filter_app; simpl; rewrite ?app_nil_r; reflexivity. }
  destruct (env_popen env) as [proc|e]; simpl.
  2:{ destruct (is_Exception e); simpl.
      - destruct (env_write_failed env); simpl;
          rewrite !List.filter_app; simpl; rewrite ?app_nil_r; reflexivity.
      - rewrite !List.filter_app; simpl; rewrite ?app_nil_r; reflexivity. }
  destruct (env_wait env) as [code|e] eqn:Hw; simpl.
  { destruct (env_write_status env); simpl;
      rewrite !List.filter_app; simpl; rewrite ?app_nil_r; reflexivity. }
  destruct e as [text| | |]; simpl; try (exfalso; apply (Hwait text); reflexivity).
  - destruct (env_write_failed env); simpl;
      rewrite !List.filter_app; simpl; rewrite ?app_nil_r; reflexivity.
  - destruct (env_write_failed env); simpl;
      rewrite !List.filter_app; simpl; rewrite ?app_nil_r; reflexivity.
  - rewrite !List.filter_app; simpl; rewrite ?app_nil_r; reflexivity.
Qed.

Lemma no_signal_without_timeout_witness :
  List.filter is_escalation
    (trace (snd (run_single_test Sample.failing_test (Sample.asm_test "t1.o")
                   "RV32RocketConfig" 1000 false "logs" "/tmp/r" 3600 Sample.start)))
  = List.filter is_escalation [].
Proof.
  apply (no_signal_without_timeout Sample.failing_test (Sample.asm_test "t1.o")
           "RV32RocketConfig" 1000 false "logs" "/tmp/r" 3600 [] []).
  - intros proc _. apply not_elem_of_nil.
  - intros text. discriminate.
Defined.

(** A timeout whose SIGTERM cannot be delivered is not a TIMEOUT: when
    [proc.wait] times out and the first [os.killpg] raises, the call neither
    sleeps nor sends SIGKILL, and the exception makes the test FAILED, its
    text printed. *)
Theorem undelivered_sigterm_means_failed (env : test_env) (test_file : Path)
    (config : string) (timeout_cycles : Z) (debug : bool)
    (log_dir result_dir : string) (wall_timeout : Z) (reg : list Popen)
    (tr : list event) (proc : Popen) (text : string) (e : exn)
    (Hopen : env_open env = None) (Hspawn : env_popen env = Ok proc)
    (Hfresh : proc ∉ reg)
    (Hwait : env_wait env = Raised (TimeoutExpired text))
    (Hterm : env_killpg_term env = Some e) (Hclass : is_Exception e = true)
    (Hwrite : env_write_failed env = None) :
  let r := run_single_test env test_file config timeout_cycles debug log_dir
             result_dir wall_timeout (mkWorld reg tr) in
  fst r = Ok (path_stem test_file, FAILED)
  /\ List.filter is_escalation (trace (snd r)) = List.filter is_escalation tr
  /\ EvPrint ("ERROR: " +:+ path_stem test_file +:+ " - " +:+ exn_text e)
     ∈ trace (snd r).
Proof.
  cbv zeta. rewrite run_single_test_unfold
    by (intros p Hp; rewrite Hspawn in Hp; injection Hp as <-; exact Hfresh).
  unfold run_single_test_paths, supervise_paths.
  rewrite Hopen, Hspawn, Hwait. simpl. rewrite Hterm. simpl.
  rewrite Hclass, Hwrite. simpl.
  split; [reflexivity|]. split.
  - rewrite !List.filter_app. simpl. rewrite !app_nil_r. reflexivity.
  - apply elem_of_app. left. apply elem_of_app. right.
    apply list_elem_of_singleton. reflexivity.
Qed.

Lemma undelivered_sigterm_means_failed_witness :
  let env := mkTestEnv None (Ok (mkPopen 4242)) (Raised (TimeoutExpired "late"))
               4242 (Some (Exception "No such process")) None (Some ["ok"]) None
               None in
  fst (run_single_test env (Sample.asm_test "t1.o") "RV32RocketConfig" 1000 false
         "logs" "/tmp/r" 3600 Sample.start)
  = Ok ("t1", FAILED).
Proof.
  intros env.
  apply (undelivered_sigterm_means_failed env (Sample.asm_test "t1.o")
           "RV32RocketConfig" 1000 false "logs" "/tmp/r" 3600 [] []
           (mkPopen 4242) "late" (Exception "No such process")).
  - reflexivity.
  - reflexivity.
  - apply not_elem_of_nil.
  - reflexivity.
  - reflexivity.
  - reflexivity.
  - reflexivity.
Defined.

Lemma determine_passed (exit_code : Z) (log : log_file_contents) :
  fst (determine_result exit_code log) = PASSED ->
  exit_code = 0
  /\ check_log_for_pattern log pat_max_cycles = false
  /\ (check_log_for_pattern log pat_error = true ->
      check_log_for_pattern log pat_fatal_at_time = true).
Proof.
  unfold determine_result, timed_out.
  destruct (bool_decide (exit_code = 124)); [discriminate|].
  destruct (check_log_for_pattern log pat_max_cycles); [discriminate|].
  destruct (check_log_for_pattern log pat_error),
           (check_log_for_pattern log pat_fatal_at_time); simpl;
    try discriminate;
    (destruct (decide (exit_code <> 0)) as [Hne|Heq]; simpl; [discriminate|]);
    intros _; (split; [lia|]); split; auto.
Qed.

(** What PASSED vouches for: [run_single_test] returns PASSED only for a
    command that was spawned, exited by itself with status 0 within the wall
    clock, and whose log has no max-cycle line and no error line, unless a
    "Fatal: ... TestDriver ... at time" line stands beside the error; and only
    after the result file was written. *)
Theorem passed_means_clean_exit (env : test_env) (test_file : Path)
    (config : string) (timeout_cycles : Z) (debug : bool)
    (log_dir result_dir : string) (wall_timeout : Z) (reg : list Popen)
    (tr : list event) (name : string)
    (Hfresh : forall proc, env_popen env = Ok proc -> proc ∉ reg)
    (Hpassed : fst (run_single_test env test_file config timeout_cycles debug
                      log_dir result_dir wall_timeout (mkWorld reg tr))
               = Ok (name, PASSED)) :
  env_open env = None
  /\ (exists proc, env_popen env = Ok proc)
  /\ env_wait env = Ok 0
  /\ env_write_status env = None
  /\ ~ has_line max_cycle_marker (env_log env)
  /\ (has_line error_marker (env_log env) ->
      has_line fatal_at_time_marker (env_log env)).
Proof.
  rewrite run_single_test_unfold in Hpassed by assumption.
  unfold run_single_test_paths, supervise_paths in Hpassed.
  assert (Hfailed : forall (w1 : world) (e : exn),
            fst (if is_Exception e
                 then match env_write_failed env with
                      | Some e' =>
                          (Raised e',
                           mkWorld (active_processes w1)
                             (trace w1
                              ++ [EvPrint ("ERROR: " +:+ path_stem test_file
                                           +:+ " - " +:+ exn_text e)]))
                      | None =>
                          (Ok (path_stem test_file, FAILED),
                           mkWorld (active_processes w1)
                             ((trace w1
                               ++ [EvPrint ("ERROR: " +:+ path_stem test_file
                                            +:+ " - " +:+ exn_text e)])
                              ++ [EvWriteText
                                    (path_join result_dir
                                       (path_stem test_file +:+ ".result"))
                                    ("FAILED:" +:+ path_stem test_file)]))
                      end
                 else (Raised e, w1))
            <> Ok (name, PASSED)).
  { intros w1 e. destruct (is_Exception e); [|discriminate].
    destruct (env_write_failed env); discriminate. }
  assert (Hclass : forall exit_code (w1 : world),
            fst (match env_write_status env with
                 | Some e => (Raised e, w1)
                 | None =>
                     (Ok (path_stem test_file,
                          fst (determine_result exit_code (env_log env))),
                      mkWorld (active_processes w1)
                        (trace w1
                         ++ [EvWriteText
                               (path_join result_dir
                                  (path_stem test_file +:+ ".result"))
                               (status_str
                                  (fst (determine_result exit_code (env_log env)))
                                +:+ ":" +:+ path_stem test_file);
                             EvPrint
                               (status_str
                                  (fst (determine_result exit_code (env_log env)))
                                +:+ ": " +:+ path_stem test_file +:+ " "
                                +:+ snd (determine_result exit_code (env_log env)))]))
                 end) = Ok (name, PASSED) ->
            env_write_status env = None
            /\ fst (determine_result exit_code (env_log env)) = PASSED).
  { intros exit_code w1 H. destruct (env_write_status env); [discriminate|].
    simpl in H. injection H as _ H. auto. }
  destruct (env_open env) as [e|]; [exfalso; exact (Hfailed _ _ Hpassed)|].
  destruct (env_popen env) as [proc|e]; [|exfalso; exact (Hfailed _ _ Hpassed)].
  destruct (env_wait env) as [code|e].
  - apply Hclass in Hpassed as [Hwrite Hst].
    apply determine_passed in Hst as (-> & Hmax & Herr).
    split; [reflexivity|]. split; [eauto|]. split; [reflexivity|].
    split; [exact Hwrite|]. split.
    + rewrite <- check_max_cycles. congruence.
    + rewrite <- check_error, <- check_fatal_at_time. exact Herr.
  - exfalso. destruct (is_TimeoutExpired e).
    + destruct (env_killpg_term env); [exact (Hfailed _ _ Hpassed)|].
      apply Hclass in Hpassed as [_ Hst]. discriminate Hst.
    + exact (Hfailed _ _ Hpassed).
Qed.

Lemma passed_means_clean_exit_witness :
  env_open Sample.quiet_test = None
  /\ (exists proc, env_popen Sample.quiet_test = Ok proc)
  /\ env_wait Sample.quiet_test = Ok 0
  /\ env_write_status Sample.quiet_test = None
  /\ ~ has_line max_cycle_marker (env_log Sample.quiet_test)
  /\ (has_line error_marker (env_log Sample.quiet_test) ->
      has_line fatal_at_time_marker (env_log Sample.quiet_test)).
Proof.
  apply (passed_means_clean_exit Sample.quiet_test (Sample.asm_test "t1.o")
           "RV32RocketConfig" 1000 false "logs" "/tmp/r" 3600 [] [] "t1").
  - intros proc _. apply not_elem_of_nil.
  - vm_compute. reflexivity.
Defined.

(* --------------------------------------------------------------------- *)
(** ** Collection and the steps of [main] before the pool *)
(* --------------------------------------------------------------------- *)

Lemma collect_loop_no_files (fs : fs_env) (exclude_pattern : string)
    (candidates tests : list Path) (w : world) :
  (forall t, t ∈ candidates -> fs_is_file fs t = false) ->
  collect_loop fs exclude_pattern candidates tests w = (Ok tests, w).
Proof.
  induction candidates as [|c candidates IH]; intros Hnone; simpl; [reflexivity|].
  rewrite (Hnone c) by left. simpl. apply IH.
  intros t Ht. apply Hnone. right. exact Ht.
Qed.

(** The exclusion expression is looked at only when a candidate is a
    regular file: when the glob yields none, [collect_tests] returns the empty
    list and prints nothing, even for an expression that does not compile. *)
Theorem exclude_unchecked_without_files (fs : fs_env) (binary_dir : Path)
    (pattern exclude_pattern : string) (w : world)
    (Hnone : forall t, t ∈ fs_glob fs binary_dir pattern -> fs_is_file fs t = false) :
  collect_tests fs binary_dir pattern exclude_pattern w = (Ok [], w).
Proof.
  unfold collect_tests. apply collect_loop_no_files.
  intros t Ht. apply Hnone. rewrite <- (sorted_perm _). exact Ht.
Qed.

Lemma exclude_unchecked_without_files_witness :
  collect_tests (Sample.fs []) ["riscv-dv"; "out"; "asm_test"] "*.o" "["
    Sample.start
  = (Ok [], Sample.start).
Proof.
  apply (exclude_unchecked_without_files (Sample.fs [])
           ["riscv-dv"; "out"; "asm_test"] "*.o" "[" Sample.start).
  intros t Ht. inversion Ht.
Defined.

Lemma filter_none {A} (f : A -> bool) (l : list A) :
  (forall x, x ∈ l -> f x = false) -> List.filter f l = [].
Proof.
  induction l as [|x l IH]; intros H; simpl; [reflexivity|].
  rewrite (H x) by left. apply IH. intros y Hy. apply H. right. exact Hy.
Qed.

(** An empty selection is a failure: when the directories exist, the
    generator step does not raise, and no candidate of the glob is kept (none
    exists, or the exclusion expression matches them all), [main] prints "No
    tests found!" and exits with status 1; it submits nothing and creates no
    result directory to remove. *)
Theorem no_tests_is_a_failure (env : main_env) (a : args) (w : world)
    (found : option (string -> bool))
    (Hdv : riscv_dv_dir_exists env = true)
    (Hbin : binary_dir_exists env = true)
    (Hgen : gen_vector a = true -> gen_script_exists env = true ->
            gen_outcome env = None)
    (Hcase : (nonempty (exclude a) = false /\ found = None)
             \/ (nonempty (exclude a) = true
                 /\ exists f, found = Some f
                              /\ fs_re (env_fs env) (exclude a) = Ok f))
    (Hnone : forall t,
        t ∈ fs_glob (env_fs env) ["riscv-dv"; out_dir a; "asm_test"] (pattern a) ->
        kept (env_fs env) found t = false) :
  exists before,
    main env a w
    = (Raised (SystemExit 1),
       mkWorld (active_processes w)
         (trace w ++ before ++ [EvPrint "No tests found!"]))
    /\ forallb (fun ev => negb (is_submit ev) && negb (is_rmtree ev)) before = true.
Proof.
  destruct w as [reg tr]. unfold main. rewrite Hdv, Hbin. simpl.
  unfold mbind at 1, M_bind at 1, bind at 1.
  assert (Hg : exists before,
             generate_vectors env a (mkWorld reg tr)
             = (Ok tt, mkWorld reg (tr ++ before))
             /\ forallb (fun ev => negb (is_submit ev) && negb (is_rmtree ev)) before
                = true).
  { unfold generate_vectors. destruct (gen_vector a).
    - destruct (gen_script_exists env).
      + rewrite Hgen by reflexivity.
        exists [EvPrint "Generating test vectors...";
                EvRun ["generate_test_vector.py"; "--out-dir"; out_dir a]].
        split; [|reflexivity]. unfold_run. simpl. rewrite <- app_assoc. reflexivity.
      + exists [EvPrint "Generating test vectors...";
                EvPrint "Warning: generate_test_vector.py not found, skipping generation"].
        split; [|reflexivity]. unfold_run. simpl. rewrite <- app_assoc. reflexivity.
    - exists []. split; [|reflexivity]. rewrite app_nil_r. reflexivity. }
  destruct Hg as (before & Hg & Hbefore). rewrite Hg.
  unfold mbind at 1, M_bind at 1, bind at 1.
  assert (Hcollect : collect_tests (env_fs env) ["riscv-dv"; out_dir a; "asm_test"]
                       (pattern a) (exclude a) (mkWorld reg (tr ++ before))
                     = (Ok [], mkWorld reg (tr ++ before))).
  { unfold collect_tests.
    destruct Hcase as [[Hempty ->]|[Hnonempty (f & -> & Hre)]].
    - rewrite collect_loop_no_exclude by assumption.
      rewrite filter_none; [reflexivity|].
      intros t Ht. apply Hnone. rewrite <- (sorted_perm _). exact Ht.
    - rewrite (collect_loop_valid _ _ f) by assumption.
      rewrite filter_none; [reflexivity|].
      intros t Ht. apply Hnone. rewrite <- (sorted_perm _). exact Ht. }
  rewrite Hcollect. simpl. exists before. split; [|exact Hbefore].
  unfold_run. simpl. rewrite <- app_assoc. reflexivity.
Qed.

Lemma no_tests_is_a_failure_witness :
  exists before,
    main (Sample.driver ["a.o"; "b.o"]) (Sample.cmdline "*.o" "o") Sample.start
    = (Raised (SystemExit 1),
       mkWorld [] ([] ++ before ++ [EvPrint "No tests found!"]))
    /\ forallb (fun ev => negb (is_submit ev) && negb (is_rmtree ev)) before = true.
Proof.
  apply (no_tests_is_a_failure (Sample.driver ["a.o"; "b.o"])
           (Sample.cmdline "*.o" "o") Sample.start
           (Some (fun text => Re.search false (Re.Cat (Re.Lit "o") Re.Eps)
                                (list_ascii_of_string text)))).
  - reflexivity.
  - reflexivity.
  - discriminate.
  - right. split; [reflexivity|]. eexists. split; reflexivity.
  - intros t Ht. simpl in Ht.
    repeat (apply elem_of_cons in Ht as [->|Ht]; [vm_compute; reflexivity|]).
    inversion Ht.
Defined.

(** A failing generator stops the run: with [--gen-vector], an existing
    generator script and a generator run that raises, [main] raises that
    exception right after "Generating test vectors...": nothing is collected,
    submitted or summarised. *)
Theorem failing_generator_aborts (env : main_env) (a : args) (w : world) (e : exn)
    (Hdv : riscv_dv_dir_exists env = true)
    (Hflag : gen_vector a = true)
    (Hscript : gen_script_exists env = true)
    (Hfail : gen_outcome env = Some e) :
  main env a w
  = (Raised e,
     mkWorld (active_processes w)
       (trace w ++ [EvPrint "Generating test vectors..."])).
Proof.
  destruct w as [reg tr]. unfold main. rewrite Hdv. simpl.
  unfold mbind at 1, M_bind at 1, bind at 1.
  unfold generate_vectors. rewrite Hflag, Hscript, Hfail. reflexivity.
Qed.

Lemma failing_generator_aborts_witness :
  let env := mkMainEnv true true (Some (Exception "run.py returned 1")) true
               (Sample.fs ["a.o"]) "/tmp/test_results_x" (fun _ => Sample.quiet_test)
               (fun l => l) None (fun _ _ => None) false None in
  let a := mkArgs "out" "RV32RocketConfig" 10000000 3600 20 "*.o" EmptyString false
             true "logs" true in
  main env a Sample.start
  = (Raised (Exception "run.py returned 1"),
     mkWorld [] ([] ++ [EvPrint "Generating test vectors..."])).
Proof.
  intros env a.
  apply (failing_generator_aborts env a Sample.start
           (Exception "run.py returned 1")); reflexivity.
Defined.

(* --------------------------------------------------------------------- *)
(** ** The pool and the report, whatever happens *)
(* --------------------------------------------------------------------- *)

Lemma report_cases (env : main_env) (a : args) (tests : list Path)
    (results : gmap string status) (reg : list Popen) (tr : list event) :
  report env a tests results (mkWorld reg tr)
  = (fst (report_paths env a tests results),
     mkWorld reg (tr ++ snd (report_paths env a tests results))).
Proof.
  unfold report, report_paths. rewrite categorize_names.
  generalize (names_with PASSED (map_to_list results)) as passed.
  generalize (names_with FAILED (map_to_list results)) as failed.
  generalize (names_with TIMEOUT (map_to_list results)) as timeouts.
  intros timeouts failed passed.
  unfold mbind, M_bind, bind, emit, print, emit, mret, M_ret, ret, sys_exit, raise.
  cbn [fst snd trace active_processes].
  destruct (no_compare a).
  - destruct failed, timeouts; simpl; rewrite <- ?app_assoc; reflexivity.
  - destruct (compare_script_exists env).
    + unfold attempt, emit, raise. destruct (compare_outcome env);
        cbn [fst snd trace active_processes].
      * rewrite <- ?app_assoc. reflexivity.
      * destruct failed, timeouts; simpl; rewrite <- ?app_assoc; reflexivity.
    + unfold emit. cbn [fst snd trace active_processes].
      destruct failed, timeouts; simpl; rewrite <- ?app_assoc; reflexivity.
Qed.

Lemma foldl_record_perm (l l' : list future) (m : gmap string status) :
  NoDup (map future_key l) -> l ≡ₚ l' ->
  foldl record_future m l = foldl record_future m l'.
Proof.
  intros Hnd Hperm. apply map_eq. intros key.
  assert (Hnd' : NoDup (map future_key l')) by (rewrite <- Hperm; exact Hnd).
  destruct (decide (key ∈ map future_key l)) as [Hin|Hout].
  - apply list_elem_of_fmap in Hin as (f & -> & Hf).
    rewrite (foldl_record_nodup_key l m f Hnd Hf).
    rewrite (foldl_record_nodup_key l' m f Hnd'); [reflexivity|].
    rewrite <- Hperm. exact Hf.
  - rewrite foldl_record_other by assumption.
    rewrite foldl_record_other; [reflexivity|]. rewrite <- Hperm. exact Hout.
Qed.

(** The order in which the tests complete does not matter: for tests of
    pairwise distinct names in an uninterrupted run, two completion orders
    give the same results dictionary, hence the same summary and the same
    outcome of [main]'s [try] block. *)
Theorem completion_order_does_not_matter (env : main_env) (a : args)
    (tests : list Path) (reg : list Popen) (tr : list event)
    (order order' : list future -> list future)
    (Hpar : 0 < parallel a)
    (Hnames : NoDup (map path_stem tests))
    (Hperm : forall fs, order fs ≡ₚ fs)
    (Hperm' : forall fs, order' fs ≡ₚ fs)
    (Hquiet : interrupt_at env = None)
    (Hok : forall t, t ∈ tests -> future_ok (worker_future env a t) = true) :
  let run o := run_tests (with_order env o) a tests (mkWorld reg tr) in
  fst (run_pool (with_order env order) a tests (mkWorld reg tr))
  = fst (run_pool (with_order env order') a tests (mkWorld reg tr))
  /\ fst (run order) = fst (run order')
  /\ List.filter is_summary (trace (snd (run order)))
     = List.filter is_summary (trace (snd (run order'))).
Proof.
  cbv zeta.
  assert (Hresults :
    foldl record_future ∅ (completed_futures (with_order env order) a tests)
    = foldl record_future ∅ (completed_futures (with_order env order') a tests)).
  { apply foldl_record_perm.
    - pose proof (completed_keys (with_order env order) a tests Hperm) as Hk.
      unfold completed_futures. rewrite Hk. exact Hnames.
    - unfold completed_futures. simpl.
      change (map (worker_future (with_order env order) a) tests)
        with (map (worker_future (with_order env order') a) tests).
      rewrite (Hperm _), (Hperm' _). reflexivity. }
  assert (Hrun : forall o, (forall fs, o fs ≡ₚ fs) ->
    run_tests (with_order env o) a tests (mkWorld reg tr)
    = (fst (report_paths env a tests
              (foldl record_future ∅ (completed_futures (with_order env o) a tests))),
       mkWorld reg
         (((tr ++ [EvPrint "RISC-V DV Parallel Test Runner"])
           ++ map EvSubmit tests
           ++ flat_map future_events (completed_futures (with_order env o) a tests)
           ++ [EvPrint "Waiting for all tests to complete..."; EvSleep 1])
          ++ snd (report_paths env a tests
                    (foldl record_future ∅
                       (completed_futures (with_order env o) a tests)))
          ++ [EvRmtree (result_dir env)]))).
  { intros o Ho. unfold run_tests, try_finally.
    unfold mbind at 1, M_bind at 1, bind at 1. unfold print at 1, emit at 1.
    cbn [trace active_processes].
    unfold mbind at 1, M_bind at 1, bind at 1.
    rewrite (run_pool_completes (with_order env o) a tests reg _ Hpar Hquiet Ho Hok).
    rewrite report_cases. unfold emit. cbn [fst snd trace active_processes].
    rewrite <- !app_assoc. reflexivity. }
  split.
  { rewrite (run_pool_completes (with_order env order) a tests reg tr Hpar Hquiet
               Hperm Hok).
    rewrite (run_pool_completes (with_order env order') a tests reg tr Hpar Hquiet
               Hperm' Hok).
    cbn [fst]. rewrite Hresults. reflexivity. }
  rewrite (Hrun order Hperm), (Hrun order' Hperm'). rewrite Hresults.
  split; [reflexivity|]. cbn [snd trace].
  rewrite !List.filter_app.
  assert (Hnone : forall fs, List.filter is_summary (flat_map future_events fs) = []).
  { intros fs. induction fs as [|[t [r|e]] fs IH]; simpl; auto. }
  rewrite !Hnone. reflexivity.
Qed.

Lemma completion_order_does_not_matter_witness :
  let tests := [Sample.asm_test "a.o"; Sample.asm_test "b.o"; Sample.asm_test "c.o"] in
  let a := Sample.cmdline "*.o" EmptyString in
  fst (run_pool (with_order Sample.scenario (fun l => l)) a tests Sample.start)
  = fst (run_pool (with_order Sample.scenario (fun l => rev l)) a tests Sample.start).
Proof.
  apply (completion_order_does_not_matter Sample.scenario
           (Sample.cmdline "*.o" EmptyString)
           [Sample.asm_test "a.o"; Sample.asm_test "b.o"; Sample.asm_test "c.o"]
           [] [] (fun l => l) (fun l => rev l)).
  - reflexivity.
  - vm_compute. repeat constructor; intros H; inversion H; subst;
      try discriminate;
      repeat match goal with H' : _ ∈ _ |- _ => inversion H'; subst; clear H' end;
      try discriminate.
  - intros fs. reflexivity.
  - intros fs. simpl. apply Permutation_sym, Permutation_rev.
  - reflexivity.
  - intros t Ht.
    repeat (apply elem_of_cons in Ht as [->|Ht]; [vm_compute; reflexivity|]).
    inversion Ht.
Defined.

Lemma names_with_elem (st : status) (items : list (string * status)) (name : string) :
  name ∈ names_with st items <-> (name, st) ∈ items.
Proof.
  unfold names_with. rewrite list_elem_of_fmap. split.
  - intros ([name' st'] & -> & Hin).
    apply list_elem_of_In, List.filter_In in Hin as [Hin Hst].
    apply bool_decide_eq_true in Hst. simpl in Hst. subst st'.
    apply list_elem_of_In, Hin.
  - intros Hin. exists (name, st). split; [reflexivity|].
    apply list_elem_of_In, List.filter_In. split; [apply list_elem_of_In, Hin|].
    apply bool_decide_eq_true. reflexivity.
Qed.

Lemma names_with_nodup (st : status) (items : list (string * status)) :
  NoDup (map fst items) -> NoDup (names_with st items).
Proof.
  unfold names_with. induction items as [|[name st'] items IH]; intros Hnd; simpl.
  - constructor.
  - simpl in Hnd. apply NoDup_cons in Hnd as [Hname Hnd].
    destruct (bool_decide (st' = st)); simpl; [|apply IH, Hnd].
    apply NoDup_cons. split; [|apply IH, Hnd].
    intros Hin. apply Hname.
    apply list_elem_of_fmap in Hin as (item & -> & Hitem).
    apply list_elem_of_fmap. exists item. split; [reflexivity|].
    apply list_elem_of_In. apply list_elem_of_In, List.filter_In in Hitem as [H _].
    exact H.
Qed.

(** The three lists of the summary partition the results: a name is in
    [passed], [failed] or [timeouts] exactly when its entry is PASSED, FAILED
    or TIMEOUT, and no name stands twice in the three lists taken together. *)
Theorem summary_lists_partition_results (results : gmap string status) :
  let '(passed, failed, timeouts) := categorize (map_to_list results) in
  (forall name, name ∈ passed <-> results !! name = Some PASSED)
  /\ (forall name, name ∈ failed <-> results !! name = Some FAILED)
  /\ (forall name, name ∈ timeouts <-> results !! name = Some TIMEOUT)
  /\ NoDup (passed ++ failed ++ timeouts).
Proof.
  rewrite categorize_names.
  assert (Helem : forall st name,
             name ∈ names_with st (map_to_list results) <-> results !! name = Some st).
  { intros st name. rewrite names_with_elem. apply elem_of_map_to_list. }
  split; [apply Helem|]. split; [apply Helem|]. split; [apply Helem|].
  pose proof (NoDup_fst_map_to_list results) as Hnd.
  apply NoDup_app. split; [apply names_with_nodup, Hnd|]. split.
  - intros name Hp Hft. apply Helem in Hp.
    apply elem_of_app in Hft as [Hf|Ht]; apply Helem in Hf || apply Helem in Ht;
      congruence.
  - apply NoDup_app. split; [apply names_with_nodup, Hnd|].
    split; [|apply names_with_nodup, Hnd].
    intros name Hf Ht. apply Helem in Hf. apply Helem in Ht. congruence.
Qed.

(** A result file that cannot be written fails the test: when the command
    of a test ran to its end and writing [STATUS:name] raises, whatever the
    status was, [run_single_test] raises in the worker, and the loop of [main]
    prints the exception and records the test as FAILED. *)
Theorem unwritable_result_counts_as_failed (env : main_env) (a : args)
    (tests : list Path) (reg : list Popen) (tr : list event) (t : Path)
    (proc : Popen) (code : Z) (e : exn)
    (Hpar : 0 < parallel a)
    (Hnames : NoDup (map path_stem tests))
    (Hperm : forall fs, as_completed env fs ≡ₚ fs)
    (Hquiet : interrupt_at env = None)
    (Hok : forall t', t' ∈ tests -> future_ok (worker_future env a t') = true)
    (Ht : t ∈ tests)
    (Hopen : env_open (worker_env env t) = None)
    (Hspawn : env_popen (worker_env env t) = Ok proc)
    (Hwait : env_wait (worker_env env t) = Ok code)
    (Hwrite : env_write_status (worker_env env t) = Some e) :
  exists results tr',
    run_pool env a tests (mkWorld reg tr) = (Ok results, mkWorld reg tr')
    /\ results !! path_stem t = Some FAILED
    /\ EvPrint ("[ERROR] Exception for " +:+ path_name t +:+ ": " +:+ exn_text e)
       ∈ tr'.
Proof.
  rewrite run_pool_completes by assumption.
  eexists _, _. split; [reflexivity|].
  assert (Hfuture : worker_future env a t = (t, Raised e)).
  { unfold worker_future, worker_start. f_equal.
    rewrite run_single_test_unfold by (intros p _; apply not_elem_of_nil).
    unfold run_single_test_paths, supervise_paths.
    rewrite Hopen, Hspawn, Hwait. simpl. rewrite Hwrite. reflexivity. }
  assert (Hin : (t, Raised e) ∈ completed_futures env a tests).
  { unfold completed_futures. rewrite (Hperm _), <- Hfuture.
    apply list_elem_of_fmap. eauto. }
  split.
  - pose proof (completed_keys env a tests Hperm) as Hkeys.
    assert (Hnd : NoDup (map future_key (completed_futures env a tests)))
      by (unfold completed_futures; rewrite Hkeys; exact Hnames).
    apply (foldl_record_nodup_key _ ∅ (t, Raised e) Hnd Hin).
  - apply elem_of_app. right. apply elem_of_app. right.
    apply elem_of_app. left. apply flat_map_future_events_raised, Hin.
Qed.

Lemma unwritable_result_counts_as_failed_witness :
  let env := mkMainEnv true false None true (Sample.fs ["a.o"])
               "/tmp/test_results_x"
               (fun _ => mkTestEnv None (Ok (mkPopen 4242)) (Ok 0) 4242 None None
                           (Some ["ok"]) None (Some (Exception "disk full")))
               (fun l => l) None (fun _ _ => None) false None in
  exists results tr',
    run_pool env (Sample.cmdline "*.o" EmptyString) [Sample.asm_test "a.o"]
      Sample.start
    = (Ok results, mkWorld [] tr')
    /\ results !! "a" = Some FAILED
    /\ EvPrint "[ERROR] Exception for a.o: disk full" ∈ tr'.
Proof.
  intros env.
  apply (unwritable_result_counts_as_failed env (Sample.cmdline "*.o" EmptyString)
           [Sample.asm_test "a.o"] [] [] (Sample.asm_test "a.o") (mkPopen 4242) 0
           (Exception "disk full")).
  - reflexivity.
  - vm_compute. repeat constructor. intros H. inversion H.
  - intros fs. reflexivity.
  - reflexivity.
  - intros t _. vm_compute. reflexivity.
  - left.
  - reflexivity.
  - reflexivity.
  - reflexivity.
  - reflexivity.
Defined.

Lemma cleanup_events_driver (outcome : Popen -> signal -> option exn)
    (reg : list Popen) :
  forallb (is_driver_event reg) (cleanup_events outcome reg) = true.
Proof.
  assert (Hsig : forall sig procs,
             (forall p, p ∈ procs -> p ∈ reg) ->
             forallb (is_driver_event reg) (cleanup_signals outcome sig procs) = true).
  { intros sig procs. induction procs as [|proc procs IH]; intros Hsub; simpl;
      [reflexivity|].
    rewrite forallb_app, IH by (intros p Hp; apply Hsub; right; exact Hp).
    destruct (outcome proc sig); simpl; [reflexivity|].
    rewrite bool_decide_eq_true_2; [reflexivity|].
    destruct proc as [p]. simpl. apply Hsub. left. }
  unfold cleanup_events. rewrite !forallb_app, !Hsig by auto. reflexivity.
Qed.

Lemma pool_loop_events (env : main_env) (k : nat) (completed : list future)
    (results : gmap string status) (reg : list Popen) (tr : list event) :
  exists r evs,
    pool_loop env k completed results (mkWorld reg tr) = (r, mkWorld reg (tr ++ evs))
    /\ forallb (is_driver_event reg) evs = true.
Proof.
  revert k results tr.
  induction completed as [|[test_file outcome] rest IH]; intros k results tr.
  - exists (Ok results), []. rewrite app_nil_r. split; reflexivity.
  - cbn [pool_loop].
    unfold mbind at 1, M_bind at 1, bind at 1. unfold try_except.
    unfold mbind at 1, M_bind at 1, bind at 1.
    destruct (decide (interrupt_at env = Some k)) as [Hk|Hk].
    + rewrite checkpoint_hit by assumption. cbn [is_Exception].
      eexists _, _. split; [reflexivity|]. apply cleanup_events_driver.
    + rewrite checkpoint_skip by assumption.
      destruct outcome as [r|e].
      * unfold mbind, M_bind, bind, lift_result, mret, M_ret, ret.
        cbn [fst snd].
        destruct (IH (S k) (<[fst r := snd r]> results) tr) as (r' & evs & Hrun & Hevs).
        exists r', evs. split; assumption.
      * unfold mbind at 1, M_bind at 1, bind at 1, lift_result, raise.
        destruct (is_Exception e).
        -- unfold mbind, M_bind, bind, print, emit, mret, M_ret, ret.
           cbn [fst snd trace active_processes].
           destruct (IH (S k) (<[path_stem test_file := FAILED]> results)
                       (tr ++ [EvPrint ("[ERROR] Exception for "
                                        +:+ path_name test_file +:+ ": "
                                        +:+ exn_text e)]))
             as (r' & evs & Hrun & Hevs).
           exists r', (EvPrint ("[ERROR] Exception for " +:+ path_name test_file
                                +:+ ": " +:+ exn_text e) :: evs).
           split; [|exact Hevs].
           rewrite Hrun. rewrite <- app_assoc. reflexivity.
        -- exists (Raised e), []. rewrite app_nil_r. split; reflexivity.
Qed.

Lemma submits_are_driver_events (reg : list Popen) (tests : list Path) :
  forallb (is_driver_event reg) (map EvSubmit tests) = true.
Proof. induction tests; simpl; auto. Qed.

Lemma run_pool_events (env : main_env) (a : args) (tests : list Path)
    (reg : list Popen) (tr : list event) :
  exists r evs,
    run_pool env a tests (mkWorld reg tr) = (r, mkWorld reg (tr ++ evs))
    /\ forallb (is_driver_event reg) evs = true.
Proof.
  unfold run_pool. unfold mbind at 1, M_bind at 1, bind at 1.
  unfold make_executor. destruct (decide (parallel a <= 0)).
  { eexists _, []. rewrite app_nil_r. split; reflexivity. }
  unfold mret at 1, M_ret at 1, ret at 1.
  unfold mbind at 1, M_bind at 1, bind at 1. rewrite submit_all_unfold.
  unfold mbind at 1, M_bind at 1, bind at 1.
  destruct (pool_loop_events env 0
              (as_completed env (map (worker_future env a) tests)) ∅ reg
              (tr ++ map EvSubmit tests)) as (r & evs & Hrun & Hevs).
  rewrite Hrun.
  pose proof (submits_are_driver_events reg tests) as Hsub.
  destruct r as [results|e].
  2:{ exists (Raised e), (map EvSubmit tests ++ evs).
      split; [rewrite <- app_assoc; reflexivity|].
      rewrite forallb_app, Hsub, Hevs. reflexivity. }
  unfold mbind at 1, M_bind at 1, bind at 1. unfold print at 1, emit at 1.
  cbn [trace active_processes].
  unfold mbind at 1, M_bind at 1, bind at 1.
  destruct (decide (interrupt_at env
                    = Some (length (map (worker_future env a) tests)))) as [Hk|Hk].
  - rewrite checkpoint_hit by assumption.
    exists (Raised (SystemExit 130)),
      (map EvSubmit tests ++ evs
       ++ [EvPrint "Waiting for all tests to complete..."]
       ++ cleanup_events (signal_outcome env) reg).
    split; [rewrite <- !app_assoc; reflexivity|].
    rewrite !forallb_app, Hsub, Hevs, cleanup_events_driver. reflexivity.
  - rewrite checkpoint_skip by assumption.
    unfold mbind, M_bind, bind, sleep, emit, mret, M_ret, ret.
    cbn [fst snd trace active_processes].
    exists (Ok results),
      (map EvSubmit tests ++ evs
       ++ [EvPrint "Waiting for all tests to complete..."; EvSleep 1]).
    split; [rewrite <- !app_assoc; reflexivity|].
    rewrite !forallb_app, Hsub, Hevs. reflexivity.
Qed.

Lemma report_paths_events (env : main_env) (a : args) (tests : list Path)
    (results : gmap string status) (reg : list Popen) :
  forallb (is_driver_event reg) (snd (report_paths env a tests results)) = true.
Proof.
  unfold report_paths.
  destruct (no_compare a), (compare_script_exists env), (compare_outcome env),
    (is_nil (names_with FAILED (map_to_list results))
     && is_nil (names_with TIMEOUT (map_to_list results))); reflexivity.
Qed.

Lemma run_tests_events (env : main_env) (a : args) (tests : list Path)
    (reg : list Popen) (tr : list event) :
  exists r evs,
    run_tests env a tests (mkWorld reg tr)
    = (r, mkWorld reg (tr ++ evs ++ [EvRmtree (result_dir env)]))
    /\ forallb (is_driver_event reg) evs = true.
Proof.
  unfold run_tests, try_finally.
  unfold mbind at 1, M_bind at 1, bind at 1. unfold print at 1, emit at 1.
  cbn [trace active_processes].
  unfold mbind at 1, M_bind at 1, bind at 1.
  destruct (run_pool_events env a tests reg
              (tr ++ [EvPrint "RISC-V DV Parallel Test Runner"]))
    as (r & evs & Hrun & Hevs).
  rewrite Hrun. destruct r as [results|e].
  - rewrite report_cases. unfold emit. cbn [fst snd trace active_processes].
    exists (fst (report_paths env a tests results)),
      ([EvPrint "RISC-V DV Parallel Test Runner"] ++ evs
       ++ snd (report_paths env a tests results)).
    split; [rewrite <- !app_assoc; reflexivity|].
    rewrite !forallb_app, Hevs, report_paths_events. reflexivity.
  - unfold emit. cbn [fst snd trace active_processes].
    exists (Raised e), ([EvPrint "RISC-V DV Parallel Test Runner"] ++ evs).
    split; [rewrite <- !app_assoc; reflexivity|].
    rewrite !forallb_app, Hevs. reflexivity.
Qed.

Lemma forallb_impl {A} (f g : A -> bool) (l : list A) :
  (forall x, f x = true -> g x = true) ->
  forallb f l = true -> forallb g l = true.
Proof.
  intros Hfg. induction l as [|x l IH]; simpl; [reflexivity|].
  intros H. apply andb_true_iff in H as [Hx Hl].
  rewrite (Hfg x Hx), (IH Hl). reflexivity.
Qed.

(** The temporary result directory is removed last and once on every path
    through the [try] block of [main]: whether the pool cannot be created,
    the tests complete, an exception or a [SystemExit] escapes, or a signal
    interrupts the run, the removal is the final event and there is no other
    removal before it. *)
Theorem result_dir_removed_last_and_once (env : main_env) (a : args)
    (tests : list Path) (reg : list Popen) (tr : list event) :
  exists r evs,
    run_tests env a tests (mkWorld reg tr)
    = (r, mkWorld reg (tr ++ evs ++ [EvRmtree (result_dir env)]))
    /\ forallb (fun ev => negb (is_rmtree ev)) evs = true.
Proof.
  destruct (run_tests_events env a tests reg tr) as (r & evs & Hrun & Hevs).
  exists r, evs. split; [exact Hrun|].
  revert Hevs. apply forallb_impl. intros [] H; try reflexivity; discriminate.
Qed.

(** The driver keeps no handle of its own: [main] runs the tests in worker
    processes, its own [active_processes] is never changed, it never calls
    [os.killpg], and the only processes it ever signals are handles that were
    in its registry from the start.  With the registry empty, as it is when
    the program starts, a signal that interrupts the driver makes it signal
    no process at all. *)
Theorem driver_signals_only_its_registry (env : main_env) (a : args)
    (tests : list Path) (reg : list Popen) (tr : list event) :
  exists evs,
    snd (run_tests env a tests (mkWorld reg tr)) = mkWorld reg (tr ++ evs)
    /\ forallb (fun ev => negb (is_killpg ev)) evs = true
    /\ (forall p sig, EvSendSignal p sig ∈ evs -> mkPopen p ∈ reg)
    /\ (reg = [] -> forall p sig, EvSendSignal p sig ∉ evs).
Proof.
  destruct (run_tests_events env a tests reg tr) as (r & evs & Hrun & Hevs).
  exists (evs ++ [EvRmtree (result_dir env)]).
  assert (Hsig : forall p sig,
             EvSendSignal p sig ∈ evs ++ [EvRmtree (result_dir env)] ->
             mkPopen p ∈ reg).
  { intros p sig Hin. apply elem_of_app in Hin as [Hin|Hin].
    - rewrite forallb_elem_of in Hevs. apply Hevs in Hin. simpl in Hin.
      apply bool_decide_eq_true in Hin. exact Hin.
    - apply list_elem_of_singleton in Hin. discriminate. }
  split; [rewrite Hrun; reflexivity|]. split; [|split].
  - rewrite forallb_app. simpl. rewrite andb_true_r.
    revert Hevs. apply forallb_impl. intros [] H; try reflexivity; discriminate.
  - exact Hsig.
  - intros -> p sig Hin. apply Hsig in Hin. inversion Hin.
Qed.

(* --------------------------------------------------------------------- *)
(** ** [compare_all.py] *)
(* --------------------------------------------------------------------- *)

Example path_of_absolute_text :
  Path_of_string "/root/riscv-dv/out//asm_test/" = ["/"; "root"; "riscv-dv"; "out"; "asm_test"]
  /\ show_path (parent (Path_of_string "/root/riscv-dv/out/asm_test") ++ ["spike_sim"])
     = "/root/riscv-dv/out/spike_sim".
Proof. vm_compute. split; reflexivity. Qed.

Example path_of_relative_text :
  Path_of_string "./out/asm_test" = ["out"; "asm_test"]
  /\ parent (Path_of_string "asm_test") = []
  /\ show_path [] = ".".
Proof. vm_compute. repeat split; reflexivity. Qed.

Lemma comparison_command_shape (script_dir rocket_log spike_log : Path) :
  CompareAll.compare_command (script_dir ++ ["compare.py"]) rocket_log spike_log
  = [show_path (script_dir ++ ["compare.py"]); "--rtl"; show_path rocket_log;
     "--spike"; show_path spike_log].
Proof.
  unfold CompareAll.compare_command. rewrite path_name_snoc. reflexivity.
Qed.

(** The command of a comparison always has the [--rtl] ... [--spike] ...
    form that [compare.py] requires: the script is [compare.py] in the script
    directory, its suffix is [.py], and the other form of the command is never
    built. *)
Theorem comparison_command_names_both_logs (script_dir rocket_log spike_log : Path) :
  CompareAll.compare_command (script_dir ++ ["compare.py"]) rocket_log spike_log
  = [show_path (script_dir ++ ["compare.py"]); "--rtl"; show_path rocket_log;
     "--spike"; show_path spike_log].
Proof.
  apply comparison_command_shape.
Qed.

Lemma compare_one_tame (e : CompareAll.env)
    (log_dir spike_log_dir compare_script obj : Path) (st : CompareAll.tally)
    (reg : list Popen) (tr : list event) :
  CompareAll.tame e ->
  exists reason evs,
    CompareAll.compare_one e log_dir spike_log_dir compare_script obj st
      (mkWorld reg tr)
    = (Ok (if CompareAll.verdict e log_dir spike_log_dir compare_script obj
           then CompareAll.record_pass st (path_stem obj)
           else CompareAll.record_fail st (path_stem obj) reason),
       mkWorld reg (tr ++ evs))
    /\ List.filter CompareAll.is_run evs
       = if CompareAll.ran e log_dir spike_log_dir compare_script obj
         then [EvRun (CompareAll.compare_command compare_script
                        (CompareAll.rocket_log_of log_dir obj)
                        (CompareAll.spike_log_of spike_log_dir obj))]
         else [].
Proof.
  intros (Hopen & Hrun & Hread).
  unfold CompareAll.compare_one, CompareAll.verdict, CompareAll.ran.
  destruct (CompareAll.path_exists e (CompareAll.rocket_log_of log_dir obj)); simpl.
  2:{ eexists _, []. rewrite app_nil_r. split; reflexivity. }
  destruct (CompareAll.path_exists e (CompareAll.spike_log_of spike_log_dir obj));
    simpl.
  2:{ eexists _, []. rewrite app_nil_r. split; reflexivity. }
  destruct (CompareAll.open_write e (CompareAll.compare_log_of log_dir obj))
    as [ex|] eqn:Ho.
  { specialize (Hopen _ _ Ho).
    destruct ex; try discriminate; unfold_run; simpl;
      eexists _, _; split; reflexivity. }
  destruct (CompareAll.run_compare e _) as [ex|] eqn:Hr.
  { specialize (Hrun _ _ Hr).
    destruct ex; try discriminate; unfold_run; simpl; rewrite ?Hr; simpl;
      eexists _, _; split; reflexivity. }
  destruct (CompareAll.read_log e (CompareAll.compare_log_of log_dir obj))
    as [content|ex] eqn:Hd.
  2:{ specialize (Hread _ _ Hd).
      destruct ex; try discriminate; unfold_run; simpl; rewrite ?Hr, ?Hd; simpl;
        rewrite <- ?app_assoc; simpl; eexists _, _; split; reflexivity. }
  unfold_run. simpl. rewrite ?Hr, ?Hd. simpl.
  destruct (Re.str_in "PASSED" content); simpl; rewrite <- ?app_assoc; simpl.
  - exists EmptyString. eexists. split; reflexivity.
  - eexists _, _. split; reflexivity.
Qed.

Lemma compare_loop_tame (e : CompareAll.env)
    (log_dir spike_log_dir compare_script : Path) (objs : list Path)
    (st : CompareAll.tally) (reg : list Popen) (tr : list event) :
  CompareAll.tame e ->
  let verdict := CompareAll.verdict e log_dir spike_log_dir compare_script in
  let ran := CompareAll.ran e log_dir spike_log_dir compare_script in
  exists st' evs,
    CompareAll.compare_loop e log_dir spike_log_dir compare_script objs st
      (mkWorld reg tr) = (Ok st', mkWorld reg (tr ++ evs))
    /\ map (fun entry => fst entry) (CompareAll.results st')
       = map (fun entry => fst entry) (CompareAll.results st)
         ++ map (fun obj => (path_stem obj, verdict obj)) objs
    /\ CompareAll.pass_count st'
       = (CompareAll.pass_count st + length (List.filter verdict objs))%nat
    /\ CompareAll.fail_count st'
       = (CompareAll.fail_count st
          + length (List.filter (fun obj => negb (verdict obj)) objs))%nat
    /\ List.filter CompareAll.is_run evs
       = map (fun obj =>
                EvRun (CompareAll.compare_command compare_script
                         (CompareAll.rocket_log_of log_dir obj)
                         (CompareAll.spike_log_of spike_log_dir obj)))
           (List.filter ran objs).
Proof.
  intros Htame. cbv zeta. revert st tr.
  induction objs as [|obj objs IH]; intros st tr.
  - exists st, []. rewrite !app_nil_r. simpl. repeat split; lia.
  - cbn [CompareAll.compare_loop].
    unfold mbind at 1, M_bind at 1, bind at 1.
    destruct (compare_one_tame e log_dir spike_log_dir compare_script obj st reg tr
                Htame) as (reason & evs1 & Hone & Hrun1).
    rewrite Hone.
    destruct (IH (if CompareAll.verdict e log_dir spike_log_dir compare_script obj
                  then CompareAll.record_pass st (path_stem obj)
                  else CompareAll.record_fail st (path_stem obj) reason)
                (tr ++ evs1)) as (st' & evs2 & Hloop & Hres & Hpass & Hfail & Hrun2).
    exists st', (evs1 ++ evs2).
    split; [rewrite Hloop, <- app_assoc; reflexivity|].
    assert (Hv : CompareAll.verdict e log_dir spike_log_dir compare_script obj = true ->
                 CompareAll.ran e log_dir spike_log_dir compare_script obj = true).
    { unfold CompareAll.verdict. intros H. apply andb_true_iff in H as [H _]. exact H. }
    rewrite Hres, Hpass, Hfail. rewrite List.filter_app, Hrun1, Hrun2.
    simpl.
    destruct (CompareAll.verdict e log_dir spike_log_dir compare_script obj) eqn:Hverdict;
      simpl.
    + rewrite (Hv eq_refl). simpl. rewrite map_app, <- app_assoc. simpl.
      repeat split; lia.
    + rewrite map_app, <- app_assoc. simpl.
      destruct (CompareAll.ran e log_dir spike_log_dir compare_script obj);
        repeat split; lia.
Qed.

(** One entry per object file: when no call of the outside world raises
    anything but an [Exception], the loop of [compare_all.py] ends normally
    with one result per object file, in their order, named by the stem and
    flagged passed exactly when both logs exist, nothing raised and the
    comparison log holds "PASSED"; [pass_count + fail_count] is the number of
    object files; and the comparison command ran to its end exactly for the
    tests with both logs, an openable comparison log and a returning run. *)
Theorem comparison_tally_is_complete (e : CompareAll.env)
    (log_dir spike_log_dir compare_script : Path) (objs : list Path)
    (reg : list Popen) (tr : list event)
    (Htame : CompareAll.tame e) :
  let verdict := CompareAll.verdict e log_dir spike_log_dir compare_script in
  let ran := CompareAll.ran e log_dir spike_log_dir compare_script in
  exists st evs,
    CompareAll.compare_loop e log_dir spike_log_dir compare_script objs
      (CompareAll.mkTally [] 0 0) (mkWorld reg tr) = (Ok st, mkWorld reg (tr ++ evs))
    /\ map (fun entry => fst entry) (CompareAll.results st)
       = map (fun obj => (path_stem obj, verdict obj)) objs
    /\ CompareAll.pass_count st = length (List.filter verdict objs)
    /\ (CompareAll.pass_count st + CompareAll.fail_count st = length objs)%nat
    /\ List.filter CompareAll.is_run evs
       = map (fun obj =>
                EvRun (CompareAll.compare_command compare_script
                         (CompareAll.rocket_log_of log_dir obj)
                         (CompareAll.spike_log_of spike_log_dir obj)))
           (List.filter ran objs).
Proof.
  cbv zeta.
  destruct (compare_loop_tame e log_dir spike_log_dir compare_script objs
              (CompareAll.mkTally [] 0 0) reg tr Htame)
    as (st & evs & Hloop & Hres & Hpass & Hfail & Hrun).
  exists st, evs. split; [exact Hloop|]. split; [exact Hres|].
  split; [rewrite Hpass; reflexivity|]. split; [|exact Hrun].
  rewrite Hpass, Hfail. simpl. clear.
  induction objs as [|obj objs' IH']; simpl; [reflexivity|].
  destruct (CompareAll.verdict e log_dir spike_log_dir compare_script obj); simpl; lia.
Qed.

Lemma compare_sample_tame : CompareAll.tame CompareSample.env.
Proof.
  repeat split; simpl; intros p ex H; try discriminate.
  destruct (bool_decide _); discriminate.
Defined.

Lemma comparison_tally_is_complete_witness :
  exists st evs,
    CompareAll.compare_loop CompareSample.env ["output"; "cfg"]
      ["/"; "out"; "spike_sim"] ["/"; "chipyard"; "sims"; "vcs"; "compare.py"]
      [["/"; "out"; "asm_test"; "a.o"]; ["/"; "out"; "asm_test"; "b.o"]]
      (CompareAll.mkTally [] 0 0) (mkWorld [] [])
    = (Ok st, mkWorld [] ([] ++ evs))
    /\ map (fun entry => fst entry) (CompareAll.results st) = [("a", true); ("b", false)]
    /\ CompareAll.pass_count st = 1%nat
    /\ (CompareAll.pass_count st + CompareAll.fail_count st = 2)%nat
    /\ List.filter CompareAll.is_run evs
       = [EvRun ["/chipyard/sims/vcs/compare.py"; "--rtl"; "output/cfg/a.out";
                 "--spike"; "/out/spike_sim/a.log"]].
Proof.
  exact (comparison_tally_is_complete CompareSample.env ["output"; "cfg"]
           ["/"; "out"; "spike_sim"] ["/"; "chipyard"; "sims"; "vcs"; "compare.py"]
           [["/"; "out"; "asm_test"; "a.o"]; ["/"; "out"; "asm_test"; "b.o"]]
           [] [] compare_sample_tame).
Defined.

Lemma for_each_quiet {A} (l : list A) (body : A -> M unit) (reg : list Popen)
    (tr : list event) :
  (forall x tr', exists evs,
      body x (mkWorld reg tr') = (Ok tt, mkWorld reg (tr' ++ evs))
      /\ List.filter CompareAll.is_run evs = []) ->
  exists evs,
    for_each l body (mkWorld reg tr) = (Ok tt, mkWorld reg (tr ++ evs))
    /\ List.filter CompareAll.is_run evs = [].
Proof.
  intros Hbody. revert tr. induction l as [|x l IH]; intros tr.
  - exists []. rewrite app_nil_r. split; reflexivity.
  - destruct (Hbody x tr) as (evs1 & H1 & Hq1).
    destruct (IH (tr ++ evs1)) as (evs2 & H2 & Hq2).
    exists (evs1 ++ evs2). cbn [for_each].
    unfold mbind at 1, M_bind at 1, bind at 1. rewrite H1, H2, <- app_assoc.
    split; [reflexivity|]. rewrite List.filter_app, Hq1, Hq2. reflexivity.
Qed.

Lemma summarize_exits (objs : list Path) (st : CompareAll.tally) (reg : list Popen)
    (tr : list event) :
  exists evs,
    CompareAll.summarize objs st (mkWorld reg tr)
    = (Raised (SystemExit (if (CompareAll.fail_count st =? 0)%nat then 0 else 1)),
       mkWorld reg (tr ++ evs))
    /\ List.filter CompareAll.is_run evs = [].
Proof.
  unfold CompareAll.summarize.
  pose (counts := [EvPrint "Summary";
                   EvPrint ("Total:  " +:+ pretty (length objs));
                   EvPrint ("Passed: " +:+ pretty (CompareAll.pass_count st));
                   EvPrint ("Failed: " +:+ pretty (CompareAll.fail_count st))]).
  destruct (0 <? CompareAll.fail_count st)%nat.
  - destruct (for_each_quiet (CompareAll.results st)
                (fun entry =>
                   if snd (fst entry) then mret tt
                   else print ("  - " +:+ fst (fst entry) +:+ ": " +:+ snd entry))
                reg (tr ++ counts ++ [EvPrint "Failed tests:"]))
      as (evs & Hfor & Hq).
    { intros [[name passed] reason] tr'. simpl. destruct passed.
      - exists []. rewrite app_nil_r. split; reflexivity.
      - exists [EvPrint ("  - " +:+ name +:+ ": " +:+ reason)].
        split; reflexivity. }
    exists (counts ++ [EvPrint "Failed tests:"] ++ evs). split.
    + unfold mbind, M_bind, bind, print, emit, sys_exit, raise in Hfor |- *.
      cbn [trace active_processes]. rewrite <- !app_assoc. cbn [app].
      unfold counts in Hfor. cbn [app] in Hfor. rewrite Hfor.
      unfold counts. rewrite <- !app_assoc. reflexivity.
    + rewrite !List.filter_app, Hq. reflexivity.
  - exists counts. split; [|reflexivity].
    unfold mbind, M_bind, bind, mret, M_ret, ret, print, emit, sys_exit, raise.
    cbn [trace active_processes]. rewrite <- !app_assoc. reflexivity.
Qed.

Lemma no_failures_iff_all {A} (f : A -> bool) (l : list A) :
  (length (List.filter (fun x => negb (f x)) l) =? 0)%nat = forallb f l.
Proof.
  induction l as [|x l IH]; simpl; [reflexivity|].
  destruct (f x); simpl; [exact IH|reflexivity].
Qed.

(** The exit status of [compare_all.py] is 0 exactly when every comparison
    passed: started with two arguments naming existing directories and with
    [compare.py] beside it, and when no call of the outside world raises
    anything but an [Exception], the program exits with status 0 if each
    object file of the sorted listing has both logs, a comparison that ran to
    its end and a comparison log holding "PASSED" (in particular when there is
    no object file at all), and with status 1 otherwise; it ran the comparison
    command once for each test with both logs whose run returned, in the
    sorted order, and nothing else. *)
Theorem comparison_exit_status (e : CompareAll.env) (prog arg1 arg2 : string)
    (reg : list Popen) (tr : list event)
    (Hargv : CompareAll.argv e = [prog; arg1; arg2])
    (Hready : CompareAll.ready e = true)
    (Htame : CompareAll.tame e) :
  let log_dir := Path_of_string arg2 in
  let spike_log_dir := parent (Path_of_string arg1) ++ ["spike_sim"] in
  let compare_script := CompareAll.script_dir e ++ ["compare.py"] in
  let objs := sorted (CompareAll.glob_o e (Path_of_string arg1)) in
  exists evs,
    CompareAll.main e (mkWorld reg tr)
    = (Raised (SystemExit
                 (if forallb (CompareAll.verdict e log_dir spike_log_dir compare_script)
                       objs
                  then 0 else 1)),
       mkWorld reg (tr ++ evs))
    /\ List.filter CompareAll.is_run evs
       = map (fun obj =>
                EvRun [show_path compare_script; "--rtl";
                       show_path (CompareAll.rocket_log_of log_dir obj);
                       "--spike";
                       show_path (CompareAll.spike_log_of spike_log_dir obj)])
           (List.filter (CompareAll.ran e log_dir spike_log_dir compare_script) objs).
Proof.
  cbv zeta. unfold CompareAll.ready in Hready. unfold CompareAll.main.
  rewrite Hargv in *.
  apply andb_true_iff in Hready as [Hready Hscript].
  apply andb_true_iff in Hready as [Hasm Hlog].
  rewrite Hasm, Hlog, Hscript. cbn [negb].
  destruct (sorted (CompareAll.glob_o e (Path_of_string arg1))) as [|obj objs] eqn:Hobjs.
  { eexists. unfold_run. simpl. split; reflexivity. }
  cbn [is_nil].
  pose (banner :=
          [EvPrint ("Found " +:+ pretty (length (obj :: objs)) +:+ " tests to compare");
           EvPrint ("ASM dir:       " +:+ show_path (Path_of_string arg1));
           EvPrint ("Rocket logs:   " +:+ show_path (Path_of_string arg2));
           EvPrint ("Spike logs:    "
                    +:+ show_path (parent (Path_of_string arg1) ++ ["spike_sim"]));
           EvPrint ("Compare tool:  "
                    +:+ path_name (CompareAll.script_dir e ++ ["compare.py"]))]).
  destruct (compare_loop_tame e (Path_of_string arg2)
              (parent (Path_of_string arg1) ++ ["spike_sim"])
              (CompareAll.script_dir e ++ ["compare.py"]) (obj :: objs)
              (CompareAll.mkTally [] 0 0) reg (tr ++ banner) Htame)
    as (st & evs1 & Hloop & _ & _ & Hfail & Hrun).
  destruct (summarize_exits (obj :: objs) st reg ((tr ++ banner) ++ evs1))
    as (evs2 & Hsum & Hq).
  exists (banner ++ evs1 ++ evs2). split.
  - unfold mbind, M_bind, bind, print, emit. cbn [trace active_processes].
    rewrite <- !app_assoc. cbn [app].
    unfold banner in Hloop. cbn [app] in Hloop. rewrite Hloop.
    unfold banner in Hsum. rewrite Hsum. rewrite Hfail. cbn [CompareAll.fail_count Nat.add].
    rewrite no_failures_iff_all. unfold banner. rewrite <- !app_assoc. reflexivity.
  - rewrite !List.filter_app, Hq, Hrun, app_nil_r. unfold banner.
    cbn [List.filter CompareAll.is_run app].
    apply map_ext. intros o. rewrite comparison_command_shape. reflexivity.
Qed.

Lemma comparison_exit_status_witness :
  exists evs,
    CompareAll.main CompareSample.env (mkWorld [] [])
    = (Raised (SystemExit 1), mkWorld [] ([] ++ evs))
    /\ List.filter CompareAll.is_run evs
       = [EvRun ["/chipyard/sims/vcs/compare.py"; "--rtl"; "output/cfg/a.out";
                 "--spike"; "/out/spike_sim/a.log"]].
Proof.
  exact (comparison_exit_status CompareSample.env "compare_all.py" "/out/asm_test"
           "output/cfg" [] [] eq_refl eq_refl compare_sample_tame).
Defined.

(** Nothing is compared on incomplete inputs: started with a number of
    arguments other than two, or with a missing ASM directory, log directory
    or [compare.py], [compare_all.py] exits with status 1 having done nothing
    but print. *)
Theorem comparison_needs_its_inputs (e : CompareAll.env) (reg : list Popen)
    (tr : list event)
    (Hready : CompareAll.ready e = false) :
  exists evs,
    CompareAll.main e (mkWorld reg tr)
    = (Raised (SystemExit 1), mkWorld reg (tr ++ evs))
    /\ forallb (fun ev => match ev with EvPrint _ => true | _ => false end) evs = true.
Proof.
  unfold CompareAll.ready in Hready. unfold CompareAll.main.
  destruct (CompareAll.argv e) as [|prog [|arg1 [|arg2 [|extra more]]]];
    try (eexists [_; _]; unfold_run; simpl; rewrite <- app_assoc;
         split; reflexivity).
  destruct (CompareAll.path_exists e (Path_of_string arg1)); cbn [negb].
  2:{ eexists [_]. split; reflexivity. }
  destruct (CompareAll.path_exists e (Path_of_string arg2)); cbn [negb].
  2:{ eexists [_]. split; reflexivity. }
  simpl in Hready. rewrite Hready. cbn [negb].
  exists []. rewrite app_nil_r. split; reflexivity.
Qed.

Lemma comparison_needs_its_inputs_witness :
  exists evs,
    CompareAll.main CompareSample.short_env (mkWorld [] [])
    = (Raised (SystemExit 1), mkWorld [] ([] ++ evs))
    /\ forallb (fun ev => match ev with EvPrint _ => true | _ => false end) evs = true.
Proof.
  exact (comparison_needs_its_inputs CompareSample.short_env [] [] eq_refl).
Defined.

(* --------------------------------------------------------------------- *)
(** ** [compare.py] *)
(* --------------------------------------------------------------------- *)

Lemma complete_is_not_converting (ev : event) :
  (exists text,
      ev = EvPrint ("Converting RTL dump to CSV: " +:+ text)
      \/ ev = EvPrint ("Converting Spike dump to CSV: " +:+ text)
      \/ ev = EvPrint ("Comparing traces: " +:+ text)
      \/ ev = EvPrint ("Error: riscv-dv directory not found at " +:+ text))
  \/ (exists cmd, ev = EvRun cmd) ->
  ev <> EvPrint "Comparison complete!".
Proof.
  intros [[text [->|[->|[->| ->]]]]|[cmd ->]]; rewrite ?append_cons; congruence.
Qed.

Ltac not_complete H :=
  exfalso; eapply complete_is_not_converting; [|symmetry; exact H]; eauto 8.

(** The three steps of [compare.py] run in order and stop at the first one
    that raises: with the riscv-dv directory in place, the commands that ran
    to their end are the RTL conversion, the Spike conversion and the trace
    comparison up to the first failing one, whose exception ends the program;
    without the directory no command runs and the exit status is 1.
    "Comparison complete!" is printed exactly when all three commands
    succeeded. *)
Theorem compare_steps_stop_at_first_failure (e : Compare.env) (reg : list Popen)
    (tr : list event) :
  let outcome :=
    if Compare.riscv_dv_dir_exists e
    then Compare.first_failure (Compare.run_checked e) (Compare.steps e)
    else ([], Some (SystemExit 1)) in
  exists evs,
    Compare.main e (mkWorld reg tr)
    = (from_option Raised (Ok tt) (snd outcome), mkWorld reg (tr ++ evs))
    /\ List.filter CompareAll.is_run evs = map EvRun (fst outcome)
    /\ (EvPrint "Comparison complete!" ∈ evs <-> fst outcome = Compare.steps e).
Proof.
  cbv zeta. unfold Compare.main, Compare.steps.
  destruct (Compare.riscv_dv_dir_exists e); cbn [negb].
  2:{ eexists [_]. split; [reflexivity|]. split; [reflexivity|].
      split; [|discriminate].
      intros H. apply list_elem_of_singleton in H. not_complete H. }
  cbn [Compare.first_failure].
  destruct (Compare.run_checked e (Compare.rtl_to_csv e)) as [ex1|] eqn:H1.
  { eexists [_]. split; [unfold_run; simpl; reflexivity|].
    split; [reflexivity|]. split; [|discriminate].
    intros H. apply list_elem_of_singleton in H. not_complete H. }
  destruct (Compare.run_checked e (Compare.spike_to_csv e)) as [ex2|] eqn:H2.
  { eexists [_; _; _].
    split; [unfold_run; simpl; rewrite <- !app_assoc; reflexivity|].
    split; [reflexivity|]. split; [|discriminate].
    intros H. exfalso.
    repeat (apply elem_of_cons in H as [H|H]; [not_complete H|]).
    inversion H. }
  destruct (Compare.run_checked e (Compare.trace_compare e)) as [ex3|] eqn:H3.
  { eexists [_; _; _; _; _].
    split; [unfold_run; simpl; rewrite <- !app_assoc; reflexivity|].
    split; [reflexivity|]. split; [|discriminate].
    intros H. exfalso.
    repeat (apply elem_of_cons in H as [H|H]; [not_complete H|]).
    inversion H. }
  eexists [_; _; _; _; _; _; _].
  split; [unfold_run; simpl; rewrite <- !app_assoc; reflexivity|].
  split; [reflexivity|]. split; [reflexivity|].
  intros _. do 6 apply list_elem_of_further. apply list_elem_of_here.
Qed.
